(** * Gestor de recetas y lista de compras: modelo y verificación

    Shallow embedding of [project.py]: the recipe store, the shopping
    list derived from it, the step-by-step preparation, and the JSON
    persistence, followed by the properties the specification states
    about them.

    Modelling conventions.
    - A Python [dict] with string keys is a [gmap string _]; a [set] of
      strings is a [gset string].  Iterating a dict or a set is a traversal
      of [map_to_list] resp. [elements]; Python's iteration order (insertion
      order, resp. unspecified) is not the one of these lists, and no
      property below depends on it.
    - A Python [int] is a [Z]; [//] is [Z.div] (both round towards minus
      infinity), [max] is [Z.max].
    - A method is a computation in the monad [M]: it reads and writes the
      world (the manager object and the file [recetas.json]), may raise an
      exception, and leaves a trace of what it printed and how long it
      slept.  [await] is sequencing: nothing else runs in between. *)

From stdpp Require Import base option list gmap sets strings numbers pretty.

Local Open Scope string_scope.
Local Open Scope list_scope.
Local Set Warnings "-register-all,-clear-no-such-hyp".

(** ** Datos *)

Inductive EstadoCompra := PENDIENTE | COMPRADO.

Inductive CategoriaReceta := DESAYUNO | ALMUERZO | CENA | POSTRE.

Global Instance EstadoCompra_eq_dec : EqDecision EstadoCompra.
Proof. solve_decision. Defined.

Global Instance CategoriaReceta_eq_dec : EqDecision CategoriaReceta.
Proof. solve_decision. Defined.

(** [CategoriaReceta.X.value] *)
Definition categoria_value (c : CategoriaReceta) : string :=
  match c with
  | DESAYUNO => "Desayuno"
  | ALMUERZO => "Almuerzo"
  | CENA => "Cena"
  | POSTRE => "Postre"
  end.

(** [EstadoCompra.X.name] *)
Definition estado_name (e : EstadoCompra) : string :=
  match e with
  | PENDIENTE => "PENDIENTE"
  | COMPRADO => "COMPRADO"
  end.

Record Receta := mkReceta {
  nombre : string;
  categoria : CategoriaReceta;
  ingredientes : gset string;
  pasos : list string;
  tiempo_preparacion : Z
}.

Record ItemCompra := mkItemCompra {
  item_nombre : string;
  estado : EstadoCompra
}.

(** [ItemCompra(nombre)]: the state defaults to [PENDIENTE]. *)
Definition ItemCompra_nuevo (n : string) : ItemCompra := mkItemCompra n PENDIENTE.

Global Instance ItemCompra_eq_dec : EqDecision ItemCompra.
Proof. solve_decision. Defined.

Global Instance Receta_eq_dec : EqDecision Receta.
Proof. solve_decision. Defined.

Record GestorRecetas := mkGestor {
  recetas : gmap string Receta;
  lista_compras : gmap string ItemCompra
}.

(** [GestorRecetas()] *)
Definition gestor_nuevo : GestorRecetas := mkGestor ∅ ∅.

(** ** JSON

    What [json.load] returns and [json.dump] accepts.  An object keeps its
    members in file order; after [json.load] its keys are distinct.  A number
    with a fraction or an exponent is carried as its literal. *)

Inductive json :=
| JNull
| JBool (b : bool)
| JInt (z : Z)
| JFloat (literal : string)
| JStr (s : string)
| JArr (elems : list json)
| JObj (miembros : list (string * json)).

(** The file [recetas.json]: absent, present but unreadable or not JSON, or
    holding a JSON value. *)
Inductive Archivo :=
| Ausente
| Ilegible
| Contenido (j : json).

Record Mundo := mkMundo {
  gestor : GestorRecetas;
  disco : Archivo
}.

(** ** Efectos *)

Inductive excepcion :=
| KeyError
| TypeError
| ValueError
| AttributeError
| IndexError
| ZeroDivisionError
| JSONDecodeError.

(** What reaches the terminal and the clock.  The colour codes around a
    message are presentation and are not kept. *)
Inductive evento :=
| MostrarTitulo (texto : string)
| MostrarExito (texto : string)
| MostrarError (texto : string)
| ErrorCargando (e : excepcion)
| ImprimirIngredientes (ings : gset string)
| ImprimirPaso (i n : Z) (paso : string)
| Dormir (segundos : Z).

(** The outcome of a computation: a value, a raised exception, or
    [FueraDelModelo] when the Python code goes on with an object that the
    typed records above cannot hold (a [Receta] whose [pasos] is not a list
    of strings, say).  Nothing is claimed about a run that ends there. *)
Inductive resultado (A : Type) :=
| Valor (a : A)
| Lanza (e : excepcion)
| FueraDelModelo.
Arguments Valor {A} a.
Arguments Lanza {A} e.
Arguments FueraDelModelo {A}.

Global Instance resultado_ret : MRet resultado := λ A a, Valor a.

Global Instance resultado_bind : MBind resultado := λ A B k r,
  match r with
  | Valor a => k a
  | Lanza e => Lanza e
  | FueraDelModelo => FueraDelModelo
  end.

Definition M (A : Type) : Type := Mundo → resultado A * Mundo * list evento.

Global Instance M_ret : MRet M := λ A a w, (Valor a, w, []).

Global Instance M_bind : MBind M := λ A B k c w,
  match c w with
  | (Valor a, w1, ev1) =>
      match k a w1 with (r, w2, ev2) => (r, w2, ev1 ++ ev2) end
  | (Lanza e, w1, ev1) => (Lanza e, w1, ev1)
  | (FueraDelModelo, w1, ev1) => (FueraDelModelo, w1, ev1)
  end.

Definition lanzar {A} (e : excepcion) : M A := λ w, (Lanza e, w, []).
Definition emitir (ev : evento) : M unit := λ w, (Valor tt, w, [ev]).
Definition leer : M GestorRecetas := λ w, (Valor (gestor w), w, []).
Definition leer_disco : M Archivo := λ w, (Valor (disco w), w, []).
Definition escribir_disco (a : Archivo) : M unit :=
  λ w, (Valor tt, mkMundo (gestor w) a, []).
Definition asignar_recetas (rs : gmap string Receta) : M unit :=
  λ w, (Valor tt, mkMundo (mkGestor rs (lista_compras (gestor w))) (disco w), []).
Definition asignar_lista_compras (lc : gmap string ItemCompra) : M unit :=
  λ w, (Valor tt, mkMundo (mkGestor (recetas (gestor w)) lc) (disco w), []).

(** A pure computation run inside a method. *)
Definition puro {A} (r : resultado A) : M A := λ w, (r, w, []).

(** A value the typed model may be unable to hold. *)
Definition tipado {A} (o : option A) : M A :=
  puro (match o with Some a => Valor a | None => FueraDelModelo end).

(** [try: c except Exception as e: h e] *)
Definition intentar {A} (c : M A) (h : excepcion → M A) : M A := λ w,
  match c w with
  | (Lanza e, w1, ev1) =>
      match h e w1 with (r, w2, ev2) => (r, w2, ev1 ++ ev2) end
  | otro => otro
  end.

(** [for x in l: cuerpo x] *)
Fixpoint para_cada {A} (l : list A) (cuerpo : A → M unit) : M unit :=
  match l with
  | [] => mret tt
  | x :: l' => cuerpo x ;; para_cada l' cuerpo
  end.

(** [enumerate(l, i)] *)
Fixpoint enumerate {A} (i : Z) (l : list A) : list (Z * A) :=
  match l with
  | [] => []
  | x :: l' => (i, x) :: enumerate (i + 1) l'
  end.

(** [len(l)] *)
Definition len {A} (l : list A) : Z := Z.of_nat (length l).

(** [a // b] *)
Definition floordiv (a b : Z) : resultado Z :=
  if decide (b = 0%Z) then Lanza ZeroDivisionError else Valor (a `div` b)%Z.

(** [l[i]]: a negative index counts from the end. *)
Definition indexar {A} (l : list A) (i : Z) : resultado A :=
  let i' := if decide (i < 0)%Z then (len l + i)%Z else i in
  if decide (0 ≤ i' < len l)%Z then
    match l !! Z.to_nat i' with
    | Some x => Valor x
    | None => Lanza IndexError
    end
  else Lanza IndexError.

(** [d.values()] *)
Definition values {A} (d : gmap string A) : list A := (map_to_list d).*2.

(** [d.keys()] *)
Definition keys {A} (d : gmap string A) : list string := (map_to_list d).*1.

(** [del d[k]] raises [KeyError] when [k] is not a key. *)
Definition del_recetas (k : string) : M unit :=
  g ← leer;
  if decide (k ∈ dom (recetas g)) then asignar_recetas (delete k (recetas g))
  else lanzar KeyError.

Definition del_lista_compras (k : string) : M unit :=
  g ← leer;
  if decide (k ∈ dom (lista_compras g))
  then asignar_lista_compras (delete k (lista_compras g))
  else lanzar KeyError.

Definition _mostrar_titulo (texto : string) : M unit := emitir (MostrarTitulo texto).
Definition _mostrar_exito (texto : string) : M unit := emitir (MostrarExito texto).
Definition _mostrar_error (texto : string) : M unit := emitir (MostrarError texto).

(** ** Métodos de [GestorRecetas] *)

(** [reduce(lambda acc, r: acc.union(r.ingredientes), rs.values(), set())] *)
Definition union_ingredientes (rs : gmap string Receta) : gset string :=
  foldl (λ acc r, acc ∪ ingredientes r) ∅ (values rs).

Definition ingredientes_faltantes (g : GestorRecetas) : gset string :=
  union_ingredientes (recetas g)
    ∖ list_to_set (item_nombre <$> values (lista_compras g)).

Definition agregar_receta (receta : Receta) : M unit :=
  g ← leer;
  asignar_recetas (<[nombre receta := receta]> (recetas g)) ;;
  para_cada (elements (ingredientes receta)) (λ ingrediente,
    g ← leer;
    if decide (ingrediente ∈ dom (lista_compras g)) then mret tt
    else asignar_lista_compras
           (<[ingrediente := ItemCompra_nuevo ingrediente]> (lista_compras g))) ;;
  _mostrar_exito ("Receta '" +:+ nombre receta +:+ "' agregada!").

Definition eliminar_receta (n : string) : M bool :=
  g ← leer;
  if decide (n ∈ dom (recetas g)) then
    del_recetas n ;;
    g ← leer;
    let ingredientes_restantes := union_ingredientes (recetas g) in
    para_cada (keys (lista_compras g)) (λ ingrediente,
      if decide (ingrediente ∈ ingredientes_restantes) then mret tt
      else del_lista_compras ingrediente) ;;
    _mostrar_exito ("Receta '" +:+ n +:+ "' eliminada") ;;
    mret true
  else
    _mostrar_error "Receta no encontrada" ;;
    mret false.

(** [self.recetas[k]] raises [KeyError] when [k] is not a key. *)
Definition getitem_recetas (k : string) : M Receta :=
  g ← leer;
  match recetas g !! k with
  | Some r => mret r
  | None => lanzar KeyError
  end.

(** The line feed of an f-string. *)
Definition salto : string := String (Ascii.ascii_of_nat 10) "".

(** [await asyncio.sleep(t)] *)
Definition sleep (t : Z) : M unit := emitir (Dormir t).

Definition preparar_receta (n : string) : M bool :=
  g ← leer;
  if decide (n ∈ dom (recetas g)) then
    receta ← getitem_recetas n;
    _mostrar_titulo ("Preparando: " +:+ nombre receta) ;;
    emitir (ImprimirIngredientes (ingredientes receta)) ;;
    para_cada (enumerate 1 (pasos receta)) (λ '(i, paso),
      emitir (ImprimirPaso i (len (pasos receta)) paso) ;;
      q ← puro (floordiv (tiempo_preparacion receta) (len (pasos receta)));
      let tiempo_paso := 1 `max` q in
      sleep tiempo_paso)%Z ;;
    _mostrar_exito (salto +:+ "✅ ¡" +:+ nombre receta +:+ " listo en "
                      +:+ pretty (tiempo_preparacion receta) +:+ " minutos!") ;;
    mret true
  else
    _mostrar_error "¡Receta no encontrada!" ;;
    mret false.

(** *** Persistencia *)

Definition receta_a_json (r : Receta) : json :=
  JObj [("nombre", JStr (nombre r));
        ("categoria", JStr (categoria_value (categoria r)));
        ("ingredientes", JArr (JStr <$> elements (ingredientes r)));
        ("pasos", JArr (JStr <$> pasos r));
        ("tiempo_preparacion", JInt (tiempo_preparacion r))].

Definition item_a_json (i : ItemCompra) : json :=
  JObj [("nombre", JStr (item_nombre i));
        ("estado", JStr (estado_name (estado i)))].

(** The dictionary [datos] that [_guardar] builds. *)
Definition datos_de (g : GestorRecetas) : json :=
  JObj [("recetas",
           JObj ((λ '(n, r), (n, receta_a_json r)) <$> map_to_list (recetas g)));
        ("lista_compras", JArr (item_a_json <$> values (lista_compras g)))].

(** [json.dump] into the file; the write itself is taken to succeed. *)
Definition _guardar : M unit :=
  g ← leer;
  escribir_disco (Contenido (datos_de g)).

(** The worker is awaited before the caller goes on. *)
Definition _ejecutar_en_hilo {A} (func : M A) : M A := func.

Definition guardar_datos : M unit :=
  _ejecutar_en_hilo _guardar ;;
  _mostrar_exito "Datos guardados correctamente".

(** [json.load(f)] on a file that is there: its value, or the exception
    that opening or decoding raises, [JSONDecodeError] standing for all of
    them. *)
Definition json_load (a : Archivo) : resultado json :=
  match a with
  | Contenido j => Valor j
  | Ilegible | Ausente => Lanza JSONDecodeError
  end.

Definition _cargar : M json :=
  a ← leer_disco;
  puro (json_load a).

(** First binding of a key in an object. *)
Fixpoint buscar (k : string) (ms : list (string * json)) : option json :=
  match ms with
  | [] => None
  | (k', v) :: ms' => if decide (k = k') then Some v else buscar k ms'
  end.

(** [d.get(k, defecto)]: only a dict has [get]. *)
Definition get (d : json) (k : string) (defecto : json) : resultado json :=
  match d with
  | JObj ms => Valor (default defecto (buscar k ms))
  | _ => Lanza AttributeError
  end.

(** [d.items()]: only a dict has [items]. *)
Definition items (d : json) : resultado (list (string * json)) :=
  match d with
  | JObj ms => Valor ms
  | _ => Lanza AttributeError
  end.

(** [d[k]] for a string [k]: a missing key of a dict is a [KeyError];
    a list and a string take integer indices only, and the other values
    cannot be subscripted. *)
Definition getitem (d : json) (k : string) : resultado json :=
  match d with
  | JObj ms =>
      match buscar k ms with
      | Some v => Valor v
      | None => Lanza KeyError
      end
  | _ => Lanza TypeError
  end.

(** Lists and dicts are the values that cannot be hashed. *)
Definition hashable (v : json) : bool :=
  match v with
  | JArr _ | JObj _ => false
  | _ => true
  end.

(** [CategoriaReceta(v)]: lookup by value. *)
Definition CategoriaReceta_de (v : json) : resultado CategoriaReceta :=
  match v with
  | JStr s =>
      if decide (s = "Desayuno") then Valor DESAYUNO
      else if decide (s = "Almuerzo") then Valor ALMUERZO
      else if decide (s = "Cena") then Valor CENA
      else if decide (s = "Postre") then Valor POSTRE
      else Lanza ValueError
  | _ => Lanza ValueError
  end.

(** [EstadoCompra[v]]: lookup by name in the member map. *)
Definition EstadoCompra_de (v : json) : resultado EstadoCompra :=
  match v with
  | JStr s =>
      if decide (s = "PENDIENTE") then Valor PENDIENTE
      else if decide (s = "COMPRADO") then Valor COMPRADO
      else Lanza KeyError
  | JArr _ | JObj _ => Lanza TypeError
  | _ => Lanza KeyError
  end.

(** The string a value is, if it is one. *)
Definition como_str (v : json) : option string :=
  match v with JStr s => Some s | _ => None end.

(** The list of strings a value is, if it is one. *)
Definition como_lista_str (v : json) : option (list string) :=
  match v with
  | JArr l => mapM como_str l
  | _ => None
  end.

(** The integer a value is, if it is one. *)
Definition como_int (v : json) : option Z :=
  match v with JInt z => Some z | _ => None end.

(** [set(v)].  A list gives the set of its elements, which must all be
    hashable; a dict gives the set of its keys; the empty string gives the
    empty set.  The result is a set of strings when every element is one;
    the set of the characters of a non-empty string is not represented. *)
Definition set_de (v : json) : resultado (option (gset string)) :=
  match v with
  | JArr l =>
      if forallb hashable l then Valor (list_to_set <$> mapM como_str l)
      else Lanza TypeError
  | JObj ms => Valor (Some (list_to_set ms.*1))
  | JStr s => Valor (if decide (s = "") then Some ∅ else None)
  | _ => Lanza TypeError
  end.

(** [Receta(nombre=nombre, categoria=CategoriaReceta(datos_r["categoria"]),
    ingredientes=set(datos_r["ingredientes"]), pasos=datos_r["pasos"],
    tiempo_preparacion=datos_r["tiempo_preparacion"])], the arguments
    evaluated from left to right.  The dataclass checks no types: the result
    is [None] when the object built is not a typed [Receta]. *)
Definition Receta_de (n : string) (datos_r : json) : resultado (option Receta) :=
  c ← getitem datos_r "categoria";
  cat ← CategoriaReceta_de c;
  i ← getitem datos_r "ingredientes";
  ings ← set_de i;
  p ← getitem datos_r "pasos";
  t ← getitem datos_r "tiempo_preparacion";
  mret (ings' ← ings; p' ← como_lista_str p; t' ← como_int t;
        Some (mkReceta n cat ings' p' t')).

(** [{nombre: Receta(...) for nombre, datos_r in its}], filling [acc]. *)
Fixpoint recetas_de (its : list (string * json)) (acc : option (gmap string Receta))
  : resultado (option (gmap string Receta)) :=
  match its with
  | [] => mret acc
  | (n, datos_r) :: its' =>
      r ← Receta_de n datos_r;
      recetas_de its' (a ← acc; r' ← r; Some (<[n := r']> a))
  end.

(** One entry [item["nombre"]: ItemCompra(nombre=item["nombre"],
    estado=EstadoCompra[item["estado"]])]: the key, then the value, then the
    key is hashed to store the entry. *)
Definition ItemCompra_de (item : json) : resultado (option (string * ItemCompra)) :=
  k ← getitem item "nombre";
  n ← getitem item "nombre";
  e ← getitem item "estado";
  est ← EstadoCompra_de e;
  if hashable k
  then mret (k' ← como_str k; n' ← como_str n; Some (k', mkItemCompra n' est))
  else Lanza TypeError.

(** [{... for item in l}], filling [acc]. *)
Fixpoint lista_compras_de (l : list json) (acc : option (gmap string ItemCompra))
  : resultado (option (gmap string ItemCompra)) :=
  match l with
  | [] => mret acc
  | item :: l' =>
      kv ← ItemCompra_de item;
      lista_compras_de l' (a ← acc; kv' ← kv; Some (<[kv'.1 := kv'.2]> a))
  end.

(** The one-character strings of a string (its bytes here; Python has code
    points, which are strings all the same). *)
Fixpoint caracteres (s : string) : list string :=
  match s with
  | EmptyString => []
  | String c s' => String c "" :: caracteres s'
  end.

(** [for item in v]: a list gives its elements, a dict its keys, a string
    its characters; nothing else can be iterated. *)
Definition iterar (v : json) : resultado (list json) :=
  match v with
  | JArr l => Valor l
  | JObj ms => Valor (JStr <$> ms.*1)
  | JStr s => Valor (JStr <$> caracteres s)
  | _ => Lanza TypeError
  end.

(** [{nombre: Receta(...) for nombre, datos_r in
    datos.get("recetas", {}).items()}] *)
Definition recetas_en (datos : json) : resultado (option (gmap string Receta)) :=
  d ← get datos "recetas" (JObj []);
  its ← items d;
  recetas_de its (Some ∅).

(** [{item["nombre"]: ItemCompra(...) for item in
    datos.get("lista_compras", [])}] *)
Definition lista_compras_en (datos : json)
  : resultado (option (gmap string ItemCompra)) :=
  d ← get datos "lista_compras" (JArr []);
  l ← iterar d;
  lista_compras_de l (Some ∅).

(** The handler prints ["Error cargando datos: " + str(e)]; the trace keeps
    the exception. *)
Definition cargar_datos : M unit :=
  a ← leer_disco;
  match a with
  | Ausente => mret tt
  | _ =>
      intentar
        (datos ← _ejecutar_en_hilo _cargar;
         rs ← puro (recetas_en datos);
         rs' ← tipado rs;
         asignar_recetas rs' ;;
         lc ← puro (lista_compras_en datos);
         lc' ← tipado lc;
         asignar_lista_compras lc')
        (λ e, emitir (ErrorCargando e))
  end.

(** ** Interfaz de usuario: la lista de compras *)

Inductive opcion_lista := MarcarComprado | EliminarItem.

Definition es_ValueError_o_IndexError (e : excepcion) : bool :=
  match e with
  | ValueError | IndexError => true
  | _ => false
  end.

(** One round of [gestionar_lista_compras] once the option (["1"] or ["2"])
    and the item number are read: [num] is [int(num) - 1].
    [list(gestor.lista_compras.values())[num]] is the object stored in the
    dict, so that assigning its [estado] changes the entry under its key. *)
Definition gestionar_item (opcion : opcion_lista) (num : Z) : M unit :=
  intentar
    (g ← leer;
     '(k, item) ← puro (indexar (map_to_list (lista_compras g)) num);
     match opcion with
     | MarcarComprado =>
         asignar_lista_compras
           (<[k := mkItemCompra (item_nombre item) COMPRADO]> (lista_compras g)) ;;
         guardar_datos ;;
         _mostrar_exito "¡Item marcado como comprado!"
     | EliminarItem =>
         del_lista_compras (item_nombre item) ;;
         guardar_datos ;;
         _mostrar_exito "¡Item eliminado de la lista!"
     end)
    (λ e, if es_ValueError_o_IndexError e
          then _mostrar_error "Selección no válida"
          else lanzar e).

(** The operations that change the manager. *)
Inductive operacion :=
| Agregar (receta : Receta)
| Eliminar (n : string)
| Marcar (num : Z)
| Quitar (num : Z).

Definition ejecutar (o : operacion) : M unit :=
  match o with
  | Agregar receta => agregar_receta receta
  | Eliminar n => eliminar_receta n ;; mret tt
  | Marcar num => gestionar_item MarcarComprado num
  | Quitar num => gestionar_item EliminarItem num
  end.

(** ** Ejecución *)

Definition valor {A} (x : resultado A * Mundo * list evento) : resultado A := x.1.1.
Definition mundo {A} (x : resultado A * Mundo * list evento) : Mundo := x.1.2.
Definition traza {A} (x : resultado A * Mundo * list evento) : list evento := x.2.

(** The manager after a run. *)
Definition tras {A} (c : M A) (w : Mundo) : GestorRecetas := gestor (mundo (c w)).

(** A fresh process: a new manager over the disk as it is. *)
Definition arranque (d : Archivo) : Mundo := mkMundo gestor_nuevo d.

(** The durations of the pauses of a trace, in order. *)
Definition pausas (t : list evento) : list Z :=
  omap (λ ev, match ev with Dormir s => Some s | _ => None end) t.

(** The steps printed in a trace. *)
Definition pasos_impresos (t : list evento) : list string :=
  omap (λ ev, match ev with ImprimirPaso _ _ p => Some p | _ => None end) t.

(** ** Los bucles como pliegues

    What each loop does in one round and what it leaves; the lemmas below
    show that the methods compute them. *)

(** One round of the loop of [agregar_receta]. *)
Definition asegurar (lc : gmap string ItemCompra) (i : string) : gmap string ItemCompra :=
  if decide (i ∈ dom lc) then lc else <[i := ItemCompra_nuevo i]> lc.

(** One round of the loop of [eliminar_receta]. *)
Definition podar (restantes : gset string) (lc : gmap string ItemCompra) (k : string)
  : gmap string ItemCompra :=
  if decide (k ∈ restantes) then lc else delete k lc.

(** The shopping list after the loop of [eliminar_receta]. *)
Definition lista_podada (restantes : gset string) (lc : gmap string ItemCompra)
  : gmap string ItemCompra :=
  foldl (podar restantes) lc (keys lc).

(** The manager after [gestionar_item] found the entry [(k, item)]. *)
Definition gestor_tras_item (opcion : opcion_lista) (k : string) (item : ItemCompra)
    (g : GestorRecetas) : GestorRecetas :=
  match opcion with
  | MarcarComprado =>
      mkGestor (recetas g)
        (<[k := mkItemCompra (item_nombre item) COMPRADO]> (lista_compras g))
  | EliminarItem => mkGestor (recetas g) (delete (item_nombre item) (lista_compras g))
  end.

(** What the loop of [preparar_receta] prints and sleeps for the steps [l],
    numbered from [i]. *)
Definition traza_pasos (receta : Receta) (i : Z) (l : list string) : list evento :=
  '(j, paso) ← enumerate i l;
  [ImprimirPaso j (len (pasos receta)) paso;
   Dormir (1 `max` (tiempo_preparacion receta `div` len (pasos receta)))%Z].

(** ** Vocabulario de la especificación *)

(** Some stored recipe has [x] among its ingredients: [x] is in the union of
    the ingredient sets of the stored recipes. *)
Definition referenciado (g : GestorRecetas) (x : string) : Prop :=
  ∃ n r, recetas g !! n = Some r ∧ x ∈ ingredientes r.

(** The keys of the shopping list are exactly the referenced ingredients. *)
Definition union_invariante (g : GestorRecetas) : Prop :=
  ∀ x, x ∈ dom (lista_compras g) ↔ referenciado g x.

(** Every referenced ingredient is a key of the shopping list. *)
Definition cubierto (g : GestorRecetas) : Prop :=
  ∀ x, referenciado g x → x ∈ dom (lista_compras g).

(** Every record is stored under its own name. *)
Definition nombres_coherentes (g : GestorRecetas) : Prop :=
  map_Forall (λ k r, nombre r = k) (recetas g) ∧
  map_Forall (λ k it, item_nombre it = k) (lista_compras g).

(** A sequence of operations, one after the other. *)
Definition ejecutar_todas (ops : list operacion) : M unit := para_cada ops ejecutar.

(** A sequence of [agregar_receta] calls. *)
Definition agregar_todas (rs : list Receta) : M unit := para_cada rs agregar_receta.

(** The operations on recipes. *)
Definition es_de_recetas (o : operacion) : bool :=
  match o with
  | Agregar _ | Eliminar _ => true
  | _ => false
  end.

(** The operations other than the removal of a shopping item by hand. *)
Definition no_quita (o : operacion) : bool :=
  match o with
  | Quitar _ => false
  | _ => true
  end.

(** A start-up load that leaves a new manager empty whenever the file is
    absent or an error is caught. *)
Definition carga_degrada_a_vacio (d : Archivo) : Prop :=
  (d = Ausente → tras cargar_datos (arranque d) = gestor_nuevo) ∧
  (∀ e, ErrorCargando e ∈ traza (cargar_datos (arranque d)) →
        valor (cargar_datos (arranque d)) = Valor tt ∧
        tras cargar_datos (arranque d) = gestor_nuevo).

(** ** Datos de ejemplo *)

Definition tortilla : Receta :=
  mkReceta "tortilla" CENA {["huevo"; "papa"]} ["a"; "b"; "c"] 10.

Definition flan : Receta :=
  mkReceta "flan" POSTRE {["huevo"; "leche"]} ["batir"; "hornear"] 45.

Definition sopa : Receta := mkReceta "sopa" ALMUERZO {["sal"]} ["hervir"] 20.

(** A second recipe under the name of [tortilla]. *)
Definition tortilla_de_cebolla : Receta :=
  mkReceta "tortilla" CENA {["huevo"; "cebolla"]} ["batir"; "freir"] 15.

(** A manager that holds [tortilla] only. *)
Definition w_tortilla : Mundo :=
  mkMundo (mkGestor {["tortilla" := tortilla]} ∅) Ausente.

(** A manager with two recipes that share an ingredient, already bought. *)
Definition w_comprado : Mundo :=
  mkMundo
    (mkGestor {["tortilla" := tortilla; "flan" := flan]}
              {["huevo" := mkItemCompra "huevo" COMPRADO;
                "papa" := mkItemCompra "papa" PENDIENTE;
                "leche" := mkItemCompra "leche" PENDIENTE]})
    Ausente.



(** A file whose recipes are well formed and whose only shopping item has a
    state that is no member of [EstadoCompra]. *)
Definition archivo_estado_invalido : Archivo :=
  Contenido
    (JObj [("recetas", JObj [("tortilla", receta_a_json tortilla)]);
           ("lista_compras",
              JArr [JObj [("nombre", JStr "huevo"); ("estado", JStr "pendiente")]])]).

(** ** Más métodos de [GestorRecetas] *)

(** [list(filter(filtro, self.recetas.values()))], for a [filtro] that
    returns a truth value and does nothing else. *)
Definition filtrar_recetas (filtro : Receta → bool) (g : GestorRecetas) : list Receta :=
  filter (λ r, filtro r = true) (values (recetas g)).


(** ** Lo que se muestra

    What the display methods and the shell write: what the manager's methods
    trace, the printed lines (a fixed text, or the values an f-string
    formats), and the prompts of [input].  *)

Inductive salida :=
| Traza (ev : evento)
| Print (texto : string)
| PrintCategoria (c : CategoriaReceta)
| PrintReceta (i : Z) (nombre_receta : string) (minutos : Z)
| PrintIngredientes (ings : gset string)
| PrintItem (i : Z) (nombre_item : string) (comprado : bool)
| PrintOpcion (i : Z) (texto : string)
| PrintCentrado (texto : string) (ancho : Z)
| Input (prompt : string).

(** [recetas_por_categoria], a dict in insertion order: the categories in
    the order in which they came first, each with its recipes in the order
    in which they were appended. *)
Definition por_categoria := list (CategoriaReceta * list Receta).

(** [if receta.categoria not in d: d[receta.categoria] = []] and then
    [d[receta.categoria].append(receta)]. *)
Fixpoint agrupar (receta : Receta) (d : por_categoria) : por_categoria :=
  match d with
  | [] => [(categoria receta, [receta])]
  | (c, rs) :: d' =>
      if decide (categoria receta = c) then (c, rs ++ [receta]) :: d'
      else (c, rs) :: agrupar receta d'
  end.

(** The loop over [self.recetas.values()] that fills the dict. *)
Definition recetas_por_categoria (l : list Receta) : por_categoria :=
  foldl (λ d receta, agrupar receta d) [] l.

(** The lines of one recipe, numbered [i]. *)
Definition lineas_receta (ir : Z * Receta) : list salida :=
  [PrintReceta ir.1 (nombre ir.2) (tiempo_preparacion ir.2);
   PrintIngredientes (ingredientes ir.2)].

(** The lines of one category: its heading and its recipes numbered from 1. *)
Definition lineas_categoria (cr : CategoriaReceta * list Receta) : list salida :=
  PrintCategoria cr.1 :: (enumerate 1 cr.2 ≫= lineas_receta).

Definition mostrar_recetas (g : GestorRecetas) : bool * list salida :=
  let titulo := Traza (MostrarTitulo (salto +:+ "📖 RECETAS DISPONIBLES")) in
  if decide (recetas g = ∅) then
    (false, [titulo; Print "No hay recetas registradas"])
  else
    (true, titulo :: (recetas_por_categoria (values (recetas g)) ≫= lineas_categoria)).

Definition mostrar_lista_compras (g : GestorRecetas) : bool * list salida :=
  let titulo := Traza (MostrarTitulo (salto +:+ "🛒 LISTA DE COMPRAS")) in
  if decide (lista_compras g = ∅) then
    (false, [titulo; Print "La lista de compras está vacía"])
  else
    let pendientes :=
      filter (λ item, estado item = PENDIENTE) (values (lista_compras g)) in
    let comprados :=
      filter (λ item, estado item = COMPRADO) (values (lista_compras g)) in
    (true,
     [titulo]
     ++ (if decide (pendientes = []) then []
         else Print (salto +:+ "🟢 PENDIENTES:")
                :: ((λ '(i, item), PrintItem i (item_nombre item) false)
                      <$> enumerate 1 pendientes))
     ++ (if decide (comprados = []) then []
         else Print (salto +:+ "✅ COMPRADOS:")
                :: ((λ '(i, item), PrintItem i (item_nombre item) true)
                      <$> enumerate (if decide (pendientes = []) then 1
                                     else len pendientes + 1)%Z
                                    comprados))).



(** The numbered items of an output, in order. *)
Definition items_impresos (out : list salida) : list (Z * string) :=
  omap (λ s, match s with PrintItem i n _ => Some (i, n) | _ => None end) out.

(** ** El intérprete de órdenes

    The functions of the user interface run over the lines that the user
    types.  What Python's library computes on a line is a parameter: the
    properties hold for every library, Python's among them. *)

Record biblioteca := mkBiblioteca {
  strip : string → string;            (* [s.strip()] *)
  lower : string → string;            (* [s.lower()] *)
  split_coma : string → list string;  (* [s.split(",")] *)
  int_de : string → option Z          (* [int(s)], [None] for its [ValueError] *)
}.

(** How a function of the interface ends: with a value; with an exception
    that nothing has caught; with the [EOFError] of [input] when no line is
    left; outside the typed model; or, for a loop, out of fuel. *)
Inductive final (A : Type) :=
| Hecho (a : A)
| Propaga (e : excepcion)
| EOFError
| NoTipado
| SinCombustible.
Arguments Hecho {A} a.
Arguments Propaga {A} e.
Arguments EOFError {A}.
Arguments NoTipado {A}.
Arguments SinCombustible {A}.

(** A computation of the interface: from the lines not yet read and the
    world, to how it ends, the lines left, the world and what was written. *)
Definition Sh (A : Type) : Type :=
  list string → Mundo → final A * (list string * Mundo) * list salida.

Global Instance Sh_ret : MRet Sh := λ A a ent w, (Hecho a, (ent, w), []).

Global Instance Sh_bind : MBind Sh := λ A B k c ent w,
  match c ent w with
  | (Hecho a, (ent1, w1), out1) =>
      match k a ent1 w1 with (r, s2, out2) => (r, s2, out1 ++ out2) end
  | (Propaga e, s1, out1) => (Propaga e, s1, out1)
  | (EOFError, s1, out1) => (EOFError, s1, out1)
  | (NoTipado, s1, out1) => (NoTipado, s1, out1)
  | (SinCombustible, s1, out1) => (SinCombustible, s1, out1)
  end.

(** A method of the manager called from the interface. *)
Definition elevar {A} (c : M A) : Sh A := λ ent w,
  match c w with
  | (Valor a, w1, ev) => (Hecho a, (ent, w1), Traza <$> ev)
  | (Lanza e, w1, ev) => (Propaga e, (ent, w1), Traza <$> ev)
  | (FueraDelModelo, w1, ev) => (NoTipado, (ent, w1), Traza <$> ev)
  end.

(** A display method: it reads the manager and writes. *)
Definition mostrar (f : GestorRecetas → bool * list salida) : Sh bool :=
  λ ent w, (Hecho (f (gestor w)).1, (ent, w), (f (gestor w)).2).

Definition escribir (s : salida) : Sh unit := λ ent w, (Hecho tt, (ent, w), [s]).

(** [print(texto)] *)
Definition print (texto : string) : Sh unit := escribir (Print texto).

(** [input(prompt)] *)
Definition input (prompt : string) : Sh string := λ ent w,
  match ent with
  | linea :: ent' => (Hecho linea, (ent', w), [Input prompt])
  | [] => (EOFError, ([], w), [Input prompt])
  end.

Definition raise {A} (e : excepcion) : Sh A := λ ent w, (Propaga e, (ent, w), []).

(** [except ValueError] *)
Definition es_ValueError (e : excepcion) : bool :=
  match e with
  | ValueError => true
  | _ => false
  end.

(** [try: c except E: h], where [captura] tells the exceptions of [E]. *)
Definition try_except {A} (captura : excepcion → bool) (c : Sh A) (h : Sh A) : Sh A :=
  λ ent w,
  match c ent w with
  | (Propaga e, (ent1, w1), out1) =>
      if captura e
      then match h ent1 w1 with (r, s2, out2) => (r, s2, out1 ++ out2) end
      else (Propaga e, (ent1, w1), out1)
  | otro => otro
  end.

(** The value of a pure computation, or its exception. *)
Definition evaluar {A} (r : resultado A) : Sh A :=
  match r with
  | Valor a => mret a
  | Lanza e => raise e
  | FueraDelModelo => λ ent w, (NoTipado, (ent, w), [])
  end.

(** [int(s)] *)
Definition int (B : biblioteca) (s : string) : Sh Z :=
  match int_de B s with
  | Some z => mret z
  | None => raise ValueError
  end.

(** How the body of a [while True] ends a round. *)
Inductive control := Break | Continue.

(** [while True: cuerpo], for at most [fuel] rounds. *)
Fixpoint mientras (fuel : nat) (cuerpo : Sh control) : Sh unit :=
  match fuel with
  | O => λ ent w, (SinCombustible, (ent, w), [])
  | S fuel' =>
      c ← cuerpo;
      match c with
      | Break => mret tt
      | Continue => mientras fuel' cuerpo
      end
  end.

(** [while True: cuerpo] with a round more than there are lines to read: a
    round that goes on has read a line. *)
Definition while_True (cuerpo : Sh control) : Sh unit :=
  λ ent w, mientras (S (length ent)) cuerpo ent w.

(** [list(CategoriaReceta)] *)
Definition categorias : list CategoriaReceta := [DESAYUNO; ALMUERZO; CENA; POSTRE].

(** ["="*50] *)
Definition linea_doble : string := String.concat "" (replicate 50 "=").

Definition mostrar_menu : Sh string :=
  print (salto +:+ linea_doble) ;;
  escribir (PrintCentrado "SISTEMA DE GESTIÓN DE RECETAS" 50) ;;
  print linea_doble ;;
  print (salto +:+ "1. Ver recetas") ;;
  print "2. Agregar receta" ;;
  print "3. Eliminar receta" ;;
  print "4. Preparar receta" ;;
  print "5. Ver lista de compras" ;;
  print "6. Gestionar lista de compras" ;;
  print "7. Salir" ;;
  input (salto +:+ "Seleccione una opción: ").

(** The inner loop of [agregar_receta_interactivo]: the steps typed, one a
    line, up to the line that reads [fin]; empty lines are skipped. *)
Fixpoint leer_pasos (B : biblioteca) (ent : list string) (pasos : list string)
  : final (list string) * list string * list salida :=
  match ent with
  | [] => (EOFError, [], [Input "> "])
  | linea :: ent' =>
      let paso := strip B linea in
      match
        (if decide (lower B paso = "fin") then (Hecho pasos, ent', [])
         else leer_pasos B ent' (if decide (paso = "") then pasos else pasos ++ [paso]))
      with (r, ent2, out) => (r, ent2, Input "> " :: out) end
  end.

Definition pedir_pasos (B : biblioteca) : Sh (list string) := λ ent w,
  match leer_pasos B ent [] with (r, ent', out) => (r, (ent', w), out) end.

(** [{i.strip() for i in s.split(",") if i.strip()}] *)
Definition conjunto_ingredientes (B : biblioteca) (s : string) : gset string :=
  list_to_set (filter (λ i, i ≠ "") (strip B <$> split_coma B s)).

(** Lines written one after the other. *)
Definition escribir_todas (out : list salida) : Sh unit :=
  λ ent w, (Hecho tt, (ent, w), out).

(** One round of the loop of [agregar_receta_interactivo].  A [try] whose
    handler says [continue] gives [None]. *)
Definition ronda_agregar (B : biblioteca) : Sh control :=
  elevar (_mostrar_titulo "AGREGAR NUEVA RECETA") ;;
  linea ← input "Nombre de la receta: ";
  let nombre := strip B linea in
  if decide (nombre = "") then
    elevar (_mostrar_error "El nombre no puede estar vacío") ;;
    mret Continue
  else
    print (salto +:+ "Categorías disponibles:") ;;
    escribir_todas ((λ '(i, cat), PrintOpcion i (categoria_value cat))
                      <$> enumerate 1 categorias) ;;
    elegida ← try_except es_ValueError_o_IndexError
      (linea ← input "Seleccione categoría: ";
       z ← int B linea;
       let opcion := (z - 1)%Z in
       categoria ← evaluar (indexar categorias opcion);
       mret (Some categoria))
      (elevar (_mostrar_error "Opción no válida") ;;
       mret None);
    match elegida with
    | None => mret Continue
    | Some categoria =>
        print (salto +:+ "Ingredientes (separados por coma):") ;;
        linea ← input "";
        let ingredientes := conjunto_ingredientes B linea in
        print (salto +:+ "Pasos de preparación (1 por línea, termina con 'fin'):") ;;
        pasos ← pedir_pasos B;
        if decide (pasos = []) then
          elevar (_mostrar_error "Debe ingresar al menos un paso de preparación") ;;
          mret Continue
        else
          leido ← try_except es_ValueError
            (linea ← input (salto +:+ "Tiempo de preparación (minutos): ");
             tiempo ← int B linea;
             if decide (tiempo ≤ 0)%Z then raise ValueError
             else mret (Some tiempo))
            (elevar (_mostrar_error "Debe ingresar un número válido mayor a 0") ;;
             mret None);
          match leido with
          | None => mret Continue
          | Some tiempo =>
              let nueva_receta :=
                mkReceta nombre categoria ingredientes pasos tiempo in
              elevar (agregar_receta nueva_receta) ;;
              elevar guardar_datos ;;
              mret Break
          end
    end.

Definition agregar_receta_interactivo (B : biblioteca) : Sh unit :=
  while_True (ronda_agregar B).

(** One round of the loop of [eliminar_receta_interactivo]. *)
Definition ronda_eliminar (B : biblioteca) : Sh control :=
  hay ← mostrar mostrar_recetas;
  if negb hay then
    elevar (sleep 1) ;;
    mret Break
  else
    try_except es_ValueError_o_IndexError
      (opcion ← input (salto +:+ "Seleccione receta a eliminar (0 para cancelar): ");
       if decide (opcion = "0") then mret Break
       else
         z ← int B opcion;
         let opcion := (z - 1)%Z in
         g ← elevar leer;
         receta ← evaluar (indexar (values (recetas g)) opcion);
         eliminada ← elevar (eliminar_receta (nombre receta));
         (if eliminada : bool then elevar guardar_datos else mret tt) ;;
         mret Break)
      (elevar (_mostrar_error "Selección no válida") ;;
       mret Continue).

Definition eliminar_receta_interactivo (B : biblioteca) : Sh unit :=
  while_True (ronda_eliminar B).

(** One round of the loop of [preparar_receta_interactivo]. *)
Definition ronda_preparar (B : biblioteca) : Sh control :=
  hay ← mostrar mostrar_recetas;
  if negb hay then
    elevar (sleep 1) ;;
    mret Break
  else
    try_except es_ValueError_o_IndexError
      (opcion ← input (salto +:+ "Seleccione receta a preparar (0 para cancelar): ");
       if decide (opcion = "0") then mret Break
       else
         z ← int B opcion;
         let opcion := (z - 1)%Z in
         g ← elevar leer;
         receta ← evaluar (indexar (values (recetas g)) opcion);
         preparada ← elevar (preparar_receta (nombre receta));
         if preparada : bool then mret Break else mret Continue)
      (elevar (_mostrar_error "Selección no válida") ;;
       mret Continue).

Definition preparar_receta_interactivo (B : biblioteca) : Sh unit :=
  while_True (ronda_preparar B).

(** One round of the loop of [gestionar_lista_compras].
    [list(gestor.lista_compras.values())[num]] is the object stored in the
    dict under its key, so that assigning its [estado] changes that entry. *)
Definition ronda_lista_compras (B : biblioteca) : Sh control :=
  hay ← mostrar mostrar_lista_compras;
  if negb hay then
    elevar (sleep 1) ;;
    mret Break
  else
    print (salto +:+ "1. Marcar como comprado") ;;
    print "2. Eliminar item" ;;
    print "3. Volver" ;;
    opcion ← input (salto +:+ "Seleccione: ");
    if decide (opcion = "3") then mret Break
    else if decide (opcion ∉ ["1"; "2"]) then
      elevar (_mostrar_error "Opción no válida") ;;
      mret Continue
    else
      try_except es_ValueError_o_IndexError
        (num ← input (salto +:+ "Número de item (0 para cancelar): ");
         if decide (num = "0") then mret Continue
         else
           z ← int B num;
           let num := (z - 1)%Z in
           g ← elevar leer;
           '(k, item) ← evaluar (indexar (map_to_list (lista_compras g)) num);
           (if decide (opcion = "1") then
              elevar (asignar_lista_compras
                        (<[k := mkItemCompra (item_nombre item) COMPRADO]>
                           (lista_compras g))) ;;
              elevar guardar_datos ;;
              elevar (_mostrar_exito "¡Item marcado como comprado!")
            else if decide (opcion = "2") then
              elevar (del_lista_compras (item_nombre item)) ;;
              elevar guardar_datos ;;
              elevar (_mostrar_exito "¡Item eliminado de la lista!")
            else mret tt) ;;
           mret Continue)
        (elevar (_mostrar_error "Selección no válida") ;;
         mret Continue).

Definition gestionar_lista_compras (B : biblioteca) : Sh unit :=
  while_True (ronda_lista_compras B).

(** [gestor = GestorRecetas()] *)
Definition crear_gestor : Sh unit :=
  λ ent w, (Hecho tt, (ent, mkMundo gestor_nuevo (disco w)), []).

(** One round of the loop of [main]. *)
Definition ronda_main (B : biblioteca) : Sh control :=
  opcion ← mostrar_menu;
  if decide (opcion = "1") then
    mostrar mostrar_recetas ;;
    input (salto +:+ "Presione Enter para continuar...") ;;
    mret Continue
  else if decide (opcion = "2") then
    agregar_receta_interactivo B ;; mret Continue
  else if decide (opcion = "3") then
    eliminar_receta_interactivo B ;; mret Continue
  else if decide (opcion = "4") then
    preparar_receta_interactivo B ;; mret Continue
  else if decide (opcion = "5") then
    mostrar mostrar_lista_compras ;;
    input (salto +:+ "Presione Enter para continuar...") ;;
    mret Continue
  else if decide (opcion = "6") then
    gestionar_lista_compras B ;; mret Continue
  else if decide (opcion = "7") then
    elevar guardar_datos ;;
    elevar (_mostrar_exito (salto +:+ "¡Hasta pronto! 👋" +:+ salto)) ;;
    mret Break
  else
    elevar (_mostrar_error (salto +:+ "Opción no válida")) ;;
    elevar (sleep 1) ;;
    mret Continue.

Definition main (B : biblioteca) : Sh unit :=
  crear_gestor ;;
  elevar cargar_datos ;;
  while_True (ronda_main B).

(** How a run ended, the lines left, the world and what was written. *)
Definition fin {A} (x : final A * (list string * Mundo) * list salida) : final A := x.1.1.
Definition resto {A} (x : final A * (list string * Mundo) * list salida) : list string :=
  x.1.2.1.
Definition mundo_final {A} (x : final A * (list string * Mundo) * list salida) : Mundo :=
  x.1.2.2.
Definition escrito {A} (x : final A * (list string * Mundo) * list salida) : list salida :=
  x.2.

(** A library for the examples: lines are taken as typed, without blanks to
    strip, capitals to lower or commas to split at, and the integers the
    examples type are read. *)
Definition biblioteca_de_ejemplo : biblioteca :=
  mkBiblioteca
    (λ s, s)
    (λ s, s)
    (λ s, [s])
    (λ s, if decide (s = "0") then Some 0%Z
          else if decide (s = "00") then Some 0%Z
          else if decide (s = "1") then Some 1%Z
          else if decide (s = "2") then Some 2%Z
          else if decide (s = "3") then Some 3%Z
          else if decide (s = "10") then Some 10%Z
          else None).

(** ** Lógica de la interfaz

    Triples for the methods and for the functions of the interface: from a
    world that satisfies [P], a run that returns [a] leaves a world that
    satisfies [Q a], and a run that ends otherwise leaves one that satisfies
    [X] of the way it ended. *)

Inductive anormal :=
| AExcepcion (e : excepcion)
| AEOFError
| ANoTipado
| ASinCombustible.

Definition hoare_M {A} (P : Mundo → Prop) (c : M A)
    (Q : A → Mundo → Prop) (X : anormal → Mundo → Prop) : Prop :=
  ∀ w, P w →
    match valor (c w) with
    | Valor a => Q a (mundo (c w))
    | Lanza e => X (AExcepcion e) (mundo (c w))
    | FueraDelModelo => X ANoTipado (mundo (c w))
    end.

Definition hoare {A} (P : Mundo → Prop) (c : Sh A)
    (Q : A → Mundo → Prop) (X : anormal → Mundo → Prop) : Prop :=
  ∀ ent w, P w →
    match fin (c ent w) with
    | Hecho a => Q a (mundo_final (c ent w))
    | Propaga e => X (AExcepcion e) (mundo_final (c ent w))
    | EOFError => X AEOFError (mundo_final (c ent w))
    | NoTipado => X ANoTipado (mundo_final (c ent w))
    | SinCombustible => X ASinCombustible (mundo_final (c ent w))
    end.

(** A computation gives no line back. *)
Definition no_crece {A} (c : Sh A) : Prop :=
  ∀ ent w, (length (resto (c ent w)) ≤ length ent)%nat.

(** A round that goes on has read a line. *)
Definition consume (c : Sh control) : Prop :=
  ∀ ent w, fin (c ent w) = Hecho Continue →
           (length (resto (c ent w)) < length ent)%nat.

(** What [agregar_receta_interactivo] checks before it adds a recipe. *)
Definition receta_valida (r : Receta) : Prop :=
  nombre r ≠ "" ∧ pasos r ≠ [] ∧ Forall (λ p, p ≠ "") (pasos r) ∧
  (0 < tiempo_preparacion r)%Z ∧ "" ∉ ingredientes r.

Definition recetas_validas (w : Mundo) : Prop :=
  map_Forall (λ _ r, receta_valida r) (recetas (gestor w)).

(** The file holds the manager as [guardar_datos] writes it. *)
Definition sincronizado (w : Mundo) : Prop :=
  disco w = Contenido (datos_de (gestor w)).

(** Nothing is unsaved: the manager and the file are as they were at [w0], or
    the file holds the manager. *)
Definition nada_sin_guardar (w0 w : Mundo) : Prop :=
  w = w0 ∨ sincronizado w.

(** What the interface keeps from the world [w0] on: records stay stored
    under their names, nothing is left unsaved, and recipes stay valid. *)
Definition se_mantiene (w0 w : Mundo) : Prop :=
  nombres_coherentes (gestor w) ∧
  nada_sin_guardar w0 w ∧
  (recetas_validas w0 → recetas_validas w).

(** The ways the interface may end besides returning: at the end of the
    input only, and then [J] holds. *)
Definition solo_EOF (J : Mundo → Prop) (x : anormal) (w : Mundo) : Prop :=
  x = AEOFError ∧ J w.


(** A computation that reads a line, unless it ends at the end of the
    input. *)
Definition estricto {A} (c : Sh A) : Prop :=
  ∀ ent w, fin (c ent w) = EOFError ∨ (length (resto (c ent w)) < length ent)%nat.

(** The ways the body of a [try] may end besides returning: at the end of
    the input, or with an exception that its handler catches. *)
Definition salvo_captura (captura : excepcion → bool) (J : Mundo → Prop)
    (x : anormal) (w : Mundo) : Prop :=
  (x = AEOFError ∨ ∃ e, x = AExcepcion e ∧ captura e = true) ∧ J w.

(** ** Lemas sobre dicts y conjuntos *)

Lemma elem_of_values {A} (d : gmap string A) (x : A) :
  x ∈ values d ↔ ∃ k, d !! k = Some x.
Proof.
  unfold values. rewrite list_elem_of_fmap. split.
  - intros [[k y] [-> H]]. exists k. by apply elem_of_map_to_list.
  - intros [k H]. exists (k, x). split; [done|]. by apply elem_of_map_to_list.
Qed.

Lemma elem_of_keys {A} (d : gmap string A) (k : string) :
  k ∈ keys d ↔ k ∈ dom d.
Proof.
  unfold keys. rewrite elem_of_dom, list_elem_of_fmap. split.
  - intros [[k' y] [-> H]]. exists y. by apply elem_of_map_to_list.
  - intros [y H]. exists (k, y). split; [done|]. by apply elem_of_map_to_list.
Qed.

Lemma NoDup_keys {A} (d : gmap string A) : NoDup (keys d).
Proof. apply NoDup_fst_map_to_list. Qed.

Lemma elem_of_foldl_union (l : list Receta) (acc : gset string) (x : string) :
  x ∈ foldl (λ acc r, acc ∪ ingredientes r) acc l
  ↔ x ∈ acc ∨ ∃ r, r ∈ l ∧ x ∈ ingredientes r.
Proof.
  revert acc. induction l as [|r l IH]; intros acc; simpl.
  - set_solver.
  - rewrite IH. set_solver.
Qed.

Lemma elem_of_union_ingredientes (rs : gmap string Receta) (x : string) :
  x ∈ union_ingredientes rs ↔ ∃ k r, rs !! k = Some r ∧ x ∈ ingredientes r.
Proof.
  unfold union_ingredientes. rewrite elem_of_foldl_union. split.
  - intros [H|[r [Hr Hx]]]; [set_solver|].
    apply elem_of_values in Hr as [k Hk]. eauto.
  - intros (k & r & Hk & Hx). right. exists r. split; [|done].
    apply elem_of_values. eauto.
Qed.


(** ** Los métodos como transformaciones del mundo *)

Ltac desplegar :=
  unfold mbind, M_bind, mret, M_ret, leer, leer_disco, escribir_disco,
    asignar_recetas, asignar_lista_compras, lanzar, emitir, puro, tipado,
    _mostrar_exito, _mostrar_error, _mostrar_titulo, sleep,
    _ejecutar_en_hilo; simpl.

Lemma bucle_agregar (l : list string) (rs : gmap string Receta)
    (lc : gmap string ItemCompra) (d : Archivo) :
  para_cada l (λ ingrediente,
    g ← leer;
    if decide (ingrediente ∈ dom (lista_compras g)) then mret tt
    else asignar_lista_compras
           (<[ingrediente := ItemCompra_nuevo ingrediente]> (lista_compras g)))
    (mkMundo (mkGestor rs lc) d)
  = (Valor tt, mkMundo (mkGestor rs (foldl asegurar lc l)) d, []).
Proof.
  revert lc. induction l as [|i l IH]; intros lc; simpl; [done|].
  unfold mbind at 1, M_bind at 1. unfold mbind at 1, M_bind at 1. unfold leer at 1. simpl.
  unfold asegurar at 2. destruct (decide (i ∈ dom lc)); desplegar; by rewrite IH.
Qed.

Lemma lookup_foldl_asegurar (l : list string) (lc : gmap string ItemCompra) (k : string) :
  foldl asegurar lc l !! k =
    match lc !! k with
    | Some it => Some it
    | None => if decide (k ∈ l) then Some (ItemCompra_nuevo k) else None
    end.
Proof.
  revert lc. induction l as [|i l IH]; intros lc; cbn [foldl].
  - destruct (lc !! k); [done|]. by rewrite decide_False by set_solver.
  - rewrite IH. unfold asegurar. destruct (decide (i ∈ dom lc)) as [Hi|Hi].
    + destruct (lc !! k) eqn:Hk; [done|].
      assert (k ≠ i) by (intros ->; apply elem_of_dom in Hi as [? ?]; congruence).
      destruct (decide (k ∈ l)); [rewrite decide_True|rewrite decide_False]; set_solver.
    + destruct (decide (i = k)) as [->|Hne].
      * rewrite lookup_insert_eq. apply not_elem_of_dom in Hi. rewrite Hi.
        by rewrite decide_True by set_solver.
      * rewrite lookup_insert_ne by done. destruct (lc !! k); [done|].
        destruct (decide (k ∈ l)); [rewrite decide_True|rewrite decide_False]; set_solver.
Qed.

Lemma agregar_receta_run (receta : Receta) (w : Mundo) :
  agregar_receta receta w =
    (Valor tt,
     mkMundo (mkGestor (<[nombre receta := receta]> (recetas (gestor w)))
                       (foldl asegurar (lista_compras (gestor w))
                              (elements (ingredientes receta))))
             (disco w),
     [MostrarExito ("Receta '" +:+ nombre receta +:+ "' agregada!")]).
Proof.
  unfold agregar_receta. desplegar. by rewrite bucle_agregar.
Qed.


Lemma bucle_eliminar (restantes : gset string) (l : list string)
    (rs : gmap string Receta) (lc : gmap string ItemCompra) (d : Archivo) :
  NoDup l → (∀ k, k ∈ l → k ∈ dom lc) →
  para_cada l (λ ingrediente,
    if decide (ingrediente ∈ restantes) then mret tt
    else del_lista_compras ingrediente)
    (mkMundo (mkGestor rs lc) d)
  = (Valor tt, mkMundo (mkGestor rs (foldl (podar restantes) lc l)) d, []).
Proof.
  revert lc. induction l as [|i l IH]; intros lc Hnd Hdom; cbn [para_cada foldl]; [done|].
  apply NoDup_cons in Hnd as [Hi Hnd].
  unfold mbind at 1, M_bind at 1. unfold podar at 2.
  destruct (decide (i ∈ restantes)).
  - desplegar. rewrite IH; [done|done|]. intros k Hk. apply Hdom. set_solver.
  - unfold del_lista_compras. desplegar.
    rewrite decide_True by (apply Hdom; set_solver). simpl.
    rewrite IH; [done|done|].
    intros k Hk. rewrite dom_delete_L. set_solver.
Qed.

Lemma lookup_foldl_podar (restantes : gset string) (l : list string)
    (lc : gmap string ItemCompra) (k : string) :
  foldl (podar restantes) lc l !! k =
    if decide (k ∈ l ∧ k ∉ restantes) then None else lc !! k.
Proof.
  revert lc. induction l as [|i l IH]; intros lc; cbn [foldl].
  - by rewrite decide_False by set_solver.
  - rewrite IH. unfold podar.
    destruct (decide (k ∈ l ∧ k ∉ restantes)) as [[H1 H2]|H].
    + by rewrite decide_True by set_solver.
    + destruct (decide (i ∈ restantes)) as [Hi|Hi].
      * rewrite decide_False; [done|]. intros [H1 H2]. apply H.
        split; [|done]. apply elem_of_cons in H1 as [->|]; done.
      * destruct (decide (k = i)) as [->|Hne].
        -- rewrite lookup_delete_eq. by rewrite decide_True by set_solver.
        -- rewrite lookup_delete_ne by done.
           rewrite decide_False; [done|]. set_solver.
Qed.

Lemma lookup_lista_podada (restantes : gset string) (lc : gmap string ItemCompra)
    (k : string) :
  lista_podada restantes lc !! k = if decide (k ∈ restantes) then lc !! k else None.
Proof.
  unfold lista_podada. rewrite lookup_foldl_podar.
  destruct (decide (k ∈ restantes)) as [Hk|Hk].
  - by rewrite decide_False by tauto.
  - destruct (decide (k ∈ keys lc ∧ k ∉ restantes)) as [_|H]; [done|].
    apply not_elem_of_dom. rewrite <- elem_of_keys. tauto.
Qed.

Lemma eliminar_receta_run_presente (n : string) (w : Mundo) :
  n ∈ dom (recetas (gestor w)) →
  eliminar_receta n w =
    (Valor true,
     mkMundo (mkGestor (delete n (recetas (gestor w)))
                       (lista_podada (union_ingredientes (delete n (recetas (gestor w))))
                                     (lista_compras (gestor w))))
             (disco w),
     [MostrarExito ("Receta '" +:+ n +:+ "' eliminada")]).
Proof.
  intros Hn. unfold eliminar_receta, del_recetas. desplegar.
  rewrite !decide_True by done. simpl.
  rewrite bucle_eliminar; [done|apply NoDup_keys|].
  intros k. apply elem_of_keys.
Qed.

Lemma eliminar_receta_run_ausente (n : string) (w : Mundo) :
  n ∉ dom (recetas (gestor w)) →
  eliminar_receta n w = (Valor false, w, [MostrarError "Receta no encontrada"]).
Proof.
  intros Hn. unfold eliminar_receta. desplegar.
  by rewrite decide_False by done.
Qed.


Lemma indexar_casos {A} (l : list A) (i : Z) :
  (∃ x, indexar l i = Valor x ∧ x ∈ l) ∨ indexar l i = Lanza IndexError.
Proof.
  unfold indexar. case_decide; [|by right].
  destruct (l !! _) as [x|] eqn:Hx; [left|by right].
  exists x. split; [done|]. by eapply list_elem_of_lookup_2.
Qed.

Lemma gestionar_item_run (opcion : opcion_lista) (num : Z) (w : Mundo) :
  match indexar (map_to_list (lista_compras (gestor w))) num with
  | Valor (k, item) =>
      lista_compras (gestor w) !! k = Some item ∧
      (opcion = MarcarComprado ∨ item_nombre item ∈ dom (lista_compras (gestor w)) →
       valor (gestionar_item opcion num w) = Valor tt ∧
       tras (gestionar_item opcion num) w = gestor_tras_item opcion k item (gestor w))
  | _ => gestionar_item opcion num w = (Valor tt, w, [MostrarError "Selección no válida"])
  end.
Proof.
  destruct (indexar_casos (map_to_list (lista_compras (gestor w))) num)
    as [[[k item] [Hv Hin]]|He].
  - rewrite Hv. apply elem_of_map_to_list in Hin. split; [done|].
    intros Hop. unfold tras, mundo, valor, gestionar_item, intentar, guardar_datos, _guardar,
      del_lista_compras. desplegar. rewrite Hv. simpl.
    destruct opcion; simpl; [done|].
    destruct Hop as [?|Hd]; [done|]. by rewrite decide_True by done.
  - rewrite He. unfold gestionar_item, intentar. desplegar. by rewrite He.
Qed.

(** ** Agregar y eliminar recetas *)

(** C1. After [agregar_receta receta], called in the state that any sequence
    of earlier [agregar_receta] calls has left, the call returns normally,
    every ingredient of the recipe is a key of the shopping list, an
    ingredient that was not a key is stored as [ItemCompra] of its own name in
    state [PENDIENTE], and every entry the list already had is still there
    with the same name and state. *)
Theorem agregar_receta_asegura_ingredientes
    (w0 : Mundo) (previas : list Receta) (receta : Receta) :
  let w := mundo (agregar_todas previas w0) in
  let lc := lista_compras (gestor w) in
  let lc' := lista_compras (tras (agregar_receta receta) w) in
  valor (agregar_receta receta w) = Valor tt ∧
  (∀ i, i ∈ ingredientes receta → i ∈ dom lc') ∧
  (∀ i, i ∈ ingredientes receta → i ∉ dom lc →
        lc' !! i = Some (mkItemCompra i PENDIENTE)) ∧
  (∀ k it, lc !! k = Some it → lc' !! k = Some it).
Proof.
  intros w lc lc'. subst lc'. unfold tras. rewrite agregar_receta_run.
  unfold valor, mundo. simpl. fold lc.
  split; [done|]. split; [|split].
  - intros i Hi. apply elem_of_dom. rewrite lookup_foldl_asegurar.
    destruct (lc !! i); [done|].
    rewrite decide_True by (by apply elem_of_elements). done.
  - intros i Hi Hd. rewrite lookup_foldl_asegurar.
    apply not_elem_of_dom in Hd. rewrite Hd.
    by rewrite decide_True by (by apply elem_of_elements).
  - intros k it Hk. rewrite lookup_foldl_asegurar. by rewrite Hk.
Qed.

(** C2. [eliminar_receta n] returns [False] when [n] is not a stored recipe
    name.  Otherwise it returns [True], the store is the old one without [n],
    and the shopping list keeps, unchanged, the entries whose name is an
    ingredient of some remaining recipe and loses all the others. *)
Theorem eliminar_receta_poda_lista (n : string) (w : Mundo) :
  let g := gestor w in
  let g' := tras (eliminar_receta n) w in
  (n ∉ dom (recetas g) → valor (eliminar_receta n w) = Valor false) ∧
  (n ∈ dom (recetas g) →
     valor (eliminar_receta n w) = Valor true ∧
     recetas g' = delete n (recetas g) ∧
     (∀ k, referenciado g' k → lista_compras g' !! k = lista_compras g !! k) ∧
     (∀ k, ¬ referenciado g' k → lista_compras g' !! k = None)).
Proof.
  intros g g'. subst g'. unfold tras. split; intros Hn.
  - by rewrite eliminar_receta_run_ausente.
  - rewrite eliminar_receta_run_presente by done. unfold valor, mundo. simpl.
    split; [done|]. split; [done|]. unfold referenciado. simpl.
    split; intros k Hk; rewrite lookup_lista_podada.
    + by rewrite decide_True by (by apply elem_of_union_ingredientes).
    + by rewrite decide_False by (by rewrite elem_of_union_ingredientes).
Qed.

(** C3. After a successful [eliminar_receta n], an entry of the shopping list
    whose ingredient some remaining recipe still has is in the list as it
    was, purchase state included. *)
Theorem eliminar_receta_conserva_referenciados
    (n : string) (w : Mundo) (k : string) (it : ItemCompra) :
  valor (eliminar_receta n w) = Valor true →
  lista_compras (gestor w) !! k = Some it →
  referenciado (tras (eliminar_receta n) w) k →
  lista_compras (tras (eliminar_receta n) w) !! k = Some it.
Proof.
  destruct (decide (n ∈ dom (recetas (gestor w)))) as [Hn|Hn].
  - unfold tras. rewrite eliminar_receta_run_presente by done.
    unfold valor, mundo, referenciado. simpl. intros _ Hk Href.
    rewrite lookup_lista_podada.
    by rewrite decide_True by (by apply elem_of_union_ingredientes).
  - rewrite eliminar_receta_run_ausente by done. by unfold valor.
Qed.

(** C10. [eliminar_receta n] for a name that is not stored returns [False]
    and leaves the manager (store and shopping list) and the file as they
    were. *)
Theorem eliminar_receta_ausente_no_cambia (n : string) (w : Mundo) :
  n ∉ dom (recetas (gestor w)) →
  valor (eliminar_receta n w) = Valor false ∧ mundo (eliminar_receta n w) = w.
Proof.
  intros Hn. by rewrite eliminar_receta_run_ausente.
Qed.

(** ** Invariantes de las secuencias de operaciones *)

Lemma para_cada_invariante {A} (P : A → Prop) (I : Mundo → Prop) (cuerpo : A → M unit) :
  (∀ x w, P x → I w → valor (cuerpo x w) = Valor tt ∧ I (mundo (cuerpo x w))) →
  ∀ l w, Forall P l → I w →
    valor (para_cada l cuerpo w) = Valor tt ∧ I (mundo (para_cada l cuerpo w)).
Proof.
  intros Hpaso l. induction l as [|x l IH]; intros w Hl Hw; [done|].
  apply Forall_cons in Hl as [Hx Hl].
  destruct (Hpaso x w Hx Hw) as [Hv Hi].
  cbn [para_cada]. unfold mbind, M_bind.
  destruct (cuerpo x w) as [[r w1] ev1]. unfold valor, mundo in Hv, Hi. simpl in Hv, Hi.
  subst r. destruct (IH w1 Hl Hi) as [Hv' Hi'].
  destruct (para_cada l cuerpo w1) as [[r2 w2] ev2]. done.
Qed.

Lemma referenciado_insert (rs : gmap string Receta) (lc lc' : gmap string ItemCompra)
    (receta : Receta) (x : string) :
  referenciado (mkGestor (<[nombre receta := receta]> rs) lc') x →
  x ∈ ingredientes receta ∨ referenciado (mkGestor rs lc) x.
Proof.
  intros (n & r & Hn & Hx). simpl in Hn.
  destruct (decide (nombre receta = n)) as [<-|Hne].
  - rewrite lookup_insert_eq in Hn. left. congruence.
  - rewrite lookup_insert_ne in Hn by done. right. by exists n, r.
Qed.

Lemma referenciado_delete (rs : gmap string Receta) (lc lc' : gmap string ItemCompra)
    (n x : string) :
  referenciado (mkGestor (delete n rs) lc') x → referenciado (mkGestor rs lc) x.
Proof.
  intros (n' & r & Hn & Hx). simpl in Hn.
  apply lookup_delete_Some in Hn as [_ Hn]. by exists n', r.
Qed.

Lemma agregar_receta_cubierto (receta : Receta) (w : Mundo) :
  cubierto (gestor w) → cubierto (tras (agregar_receta receta) w).
Proof.
  intros Hc x Hx. unfold tras in *. rewrite agregar_receta_run in *.
  unfold mundo in *. simpl in *.
  apply elem_of_dom. rewrite lookup_foldl_asegurar.
  apply (referenciado_insert _ (lista_compras (gestor w))) in Hx as [Hx|Hx].
  - destruct (_ !! x); [done|].
    by rewrite decide_True by (by apply elem_of_elements).
  - destruct (gestor w) as [rs lc]. apply Hc, elem_of_dom in Hx as [it Hit].
    simpl in *. by rewrite Hit.
Qed.

Lemma eliminar_receta_cubierto (n : string) (w : Mundo) :
  cubierto (gestor w) → cubierto (tras (eliminar_receta n) w).
Proof.
  intros Hc x Hx. unfold tras in *.
  destruct (decide (n ∈ dom (recetas (gestor w)))) as [Hn|Hn].
  - rewrite eliminar_receta_run_presente in * by done. unfold mundo in *. simpl in *.
    apply elem_of_dom. rewrite lookup_lista_podada.
    rewrite decide_True by (by apply elem_of_union_ingredientes).
    apply elem_of_dom, Hc.
    apply (referenciado_delete _ (lista_compras (gestor w))) in Hx.
    by destruct (gestor w).
  - rewrite eliminar_receta_run_ausente in * by done. by apply Hc.
Qed.


Lemma agregar_receta_nombres (receta : Receta) (w : Mundo) :
  nombres_coherentes (gestor w) → nombres_coherentes (tras (agregar_receta receta) w).
Proof.
  intros [Hr Hi]. unfold tras. rewrite agregar_receta_run. unfold mundo. simpl.
  split; simpl.
  - intros k r Hk. destruct (decide (nombre receta = k)) as [<-|Hne].
    + rewrite lookup_insert_eq in Hk. congruence.
    + rewrite lookup_insert_ne in Hk by done. eauto.
  - intros k it. rewrite lookup_foldl_asegurar.
    destruct (_ !! k) eqn:Hk.
    + intros [= <-]. eauto.
    + case_decide; [|done]. by intros [= <-].
Qed.

Lemma eliminar_receta_nombres (n : string) (w : Mundo) :
  nombres_coherentes (gestor w) → nombres_coherentes (tras (eliminar_receta n) w).
Proof.
  intros [Hr Hi]. unfold tras.
  destruct (decide (n ∈ dom (recetas (gestor w)))) as [Hn|Hn].
  - rewrite eliminar_receta_run_presente by done. unfold mundo. simpl.
    split; simpl.
    + intros k r Hk. apply lookup_delete_Some in Hk as [_ Hk]. eauto.
    + intros k it. rewrite lookup_lista_podada. case_decide; [eauto|done].
  - by rewrite eliminar_receta_run_ausente by done.
Qed.

(** In a manager whose records are stored under their names,
    [gestionar_item] never lets an exception out, and leaves the records
    stored under their names. *)
Lemma gestionar_item_nombres (opcion : opcion_lista) (num : Z) (w : Mundo) :
  nombres_coherentes (gestor w) →
  valor (gestionar_item opcion num w) = Valor tt ∧
  nombres_coherentes (tras (gestionar_item opcion num) w).
Proof.
  intros [Hr Hi]. pose proof (gestionar_item_run opcion num w) as Hrun.
  destruct (indexar _ num) as [[k item]| |].
  - destruct Hrun as [Hk Hrun]. pose proof (Hi k item Hk) as Hnom.
    destruct Hrun as [-> ->].
    { right. rewrite Hnom. apply elem_of_dom. eauto. }
    split; [done|]. destruct opcion; split; simpl; try done.
    + intros k' it. destruct (decide (k = k')) as [<-|Hne].
      * rewrite lookup_insert_eq. by intros [= <-].
      * rewrite lookup_insert_ne by done. eauto.
    + intros k' it Hk'. apply lookup_delete_Some in Hk' as [_ Hk']. eauto.
  - unfold tras. by rewrite Hrun.
  - unfold tras. by rewrite Hrun.
Qed.

Lemma marcar_cubierto (num : Z) (w : Mundo) :
  cubierto (gestor w) → cubierto (tras (gestionar_item MarcarComprado num) w).
Proof.
  intros Hc. pose proof (gestionar_item_run MarcarComprado num w) as Hrun.
  destruct (indexar _ num) as [[k item]| |].
  - destruct Hrun as [Hk [_ ->]]; [by left|].
    intros x Hx. simpl. rewrite dom_insert_L. apply elem_of_union_r, Hc.
    by destruct (gestor w).
  - unfold tras. by rewrite Hrun.
  - unfold tras. by rewrite Hrun.
Qed.

(** What every manager reached without a manual removal satisfies. *)
Lemma sin_quitar_invariante (o : operacion) (w : Mundo) :
  no_quita o = true →
  nombres_coherentes (gestor w) ∧ cubierto (gestor w) →
  valor (ejecutar o w) = Valor tt ∧
  (nombres_coherentes (gestor (mundo (ejecutar o w))) ∧
   cubierto (gestor (mundo (ejecutar o w)))).
Proof.
  intros Ho [Hn Hc]. destruct o as [receta|n|num|num]; simpl in *; try done.
  - split; [by rewrite agregar_receta_run|].
    split; [by apply agregar_receta_nombres|by apply agregar_receta_cubierto].
  - pose proof (eliminar_receta_nombres n w Hn) as Hn'.
    pose proof (eliminar_receta_cubierto n w Hc) as Hc'.
    unfold tras in *. unfold mbind, M_bind.
    destruct (decide (n ∈ dom (recetas (gestor w)))) as [Hd|Hd].
    + rewrite eliminar_receta_run_presente in * by done. done.
    + rewrite eliminar_receta_run_ausente in * by done. done.
  - split; [by apply gestionar_item_nombres|].
    split; [by apply gestionar_item_nombres|by apply marcar_cubierto].
Qed.

Lemma gestor_nuevo_invariante (d : Archivo) :
  nombres_coherentes (gestor (arranque d)) ∧ cubierto (gestor (arranque d)).
Proof.
  split; [split|]; simpl.
  - intros k r. by rewrite lookup_empty.
  - intros k it. by rewrite lookup_empty.
  - intros x (n & r & Hn & _). simpl in Hn. by rewrite lookup_empty in Hn.
Qed.

Lemma sin_quitar_alcanzable (d : Archivo) (ops : list operacion) :
  forallb no_quita ops = true →
  valor (ejecutar_todas ops (arranque d)) = Valor tt ∧
  (nombres_coherentes (gestor (mundo (ejecutar_todas ops (arranque d)))) ∧
   cubierto (gestor (mundo (ejecutar_todas ops (arranque d))))).
Proof.
  intros Hops. unfold ejecutar_todas.
  apply (para_cada_invariante (λ o, no_quita o = true)
           (λ w, nombres_coherentes (gestor w) ∧ cubierto (gestor w))).
  - intros o w. apply sin_quitar_invariante.
  - apply Forall_forall. intros o Ho. rewrite forallb_forall in Hops.
    apply Hops. by apply list_elem_of_In.
  - apply gestor_nuevo_invariante.
Qed.

Lemma elem_of_ingredientes_faltantes (g : GestorRecetas) (x : string) :
  x ∈ ingredientes_faltantes g ↔
    referenciado g x ∧ ¬ ∃ k it, lista_compras g !! k = Some it ∧ item_nombre it = x.
Proof.
  unfold ingredientes_faltantes, referenciado.
  rewrite elem_of_difference, elem_of_union_ingredientes, elem_of_list_to_set,
    list_elem_of_fmap.
  split; intros [Hr Hn]; (split; [done|]).
  - intros (k & it & Hk & Hx). apply Hn. exists it. split; [done|].
    apply elem_of_values. eauto.
  - intros (it & Hx & Hin). apply elem_of_values in Hin as [k Hk]. apply Hn. eauto.
Qed.

Lemma faltantes_vacio (g : GestorRecetas) :
  nombres_coherentes g → cubierto g → ingredientes_faltantes g = ∅.
Proof.
  intros [_ Hi] Hc. apply elem_of_equiv_empty_L. intros x.
  rewrite elem_of_ingredientes_faltantes. intros [Hr Hn]. apply Hn.
  apply Hc, elem_of_dom in Hr as [it Hit]. exists x, it. eauto.
Qed.

Lemma es_de_recetas_no_quita (ops : list operacion) :
  forallb es_de_recetas ops = true → forallb no_quita ops = true.
Proof.
  rewrite !forallb_forall. intros H o Ho. specialize (H o Ho). by destruct o.
Qed.

(** C5. [ingredientes_faltantes] holds the ingredients of the stored recipes
    that are the name of no shopping-list entry, and it is empty in every
    state that a sequence of [agregar_receta] and [eliminar_receta] calls
    reaches from a new manager. *)
Theorem ingredientes_faltantes_vacio :
  (∀ g x, x ∈ ingredientes_faltantes g ↔
            referenciado g x ∧
            ¬ ∃ k it, lista_compras g !! k = Some it ∧ item_nombre it = x) ∧
  (∀ d ops, forallb es_de_recetas ops = true →
            ingredientes_faltantes (tras (ejecutar_todas ops) (arranque d)) = ∅).
Proof.
  split; [apply elem_of_ingredientes_faltantes|].
  intros d ops Hops. apply es_de_recetas_no_quita in Hops.
  destruct (sin_quitar_alcanzable d ops Hops) as (_ & Hn & Hc).
  by apply faltantes_vacio.
Qed.


(** *** Fuera de la unión *)

(** Removing an item by hand leaves a referenced ingredient without entry. *)
Example quitar_deja_sin_entrada :
  let g := tras (ejecutar_todas [Agregar sopa; Quitar 0]) (arranque Ausente) in
  recetas g !! "sopa" = Some sopa ∧ lista_compras g = ∅.
Proof. split; vm_compute; reflexivity. Qed.

(** Replacing a recipe leaves the entries of the ingredients it had. *)
Example reemplazar_deja_entrada :
  let g := tras (ejecutar_todas [Agregar tortilla; Agregar tortilla_de_cebolla])
             (arranque Ausente) in
  recetas g = {["tortilla" := tortilla_de_cebolla]} ∧
  lista_compras g !! "papa" = Some (mkItemCompra "papa" PENDIENTE).
Proof. split; vm_compute; reflexivity. Qed.

(** Closed, decidable facts by evaluation. *)
Ltac evaluar := apply (bool_decide_unpack _); vm_compute; exact I.


(** ** Preparar una receta *)

Lemma mbind_Valor {A B} (c : M A) (k : A → M B) (w w1 : Mundo) (a : A)
    (ev1 : list evento) :
  c w = (Valor a, w1, ev1) →
  (c ≫= k) w = match k a w1 with (r, w2, ev2) => (r, w2, ev1 ++ ev2) end.
Proof. intros H. unfold mbind, M_bind. by rewrite H. Qed.

Lemma para_cada_cons {A} (x : A) (l : list A) (cuerpo : A → M unit)
    (w w1 : Mundo) (ev1 : list evento) :
  cuerpo x w = (Valor tt, w1, ev1) →
  para_cada (x :: l) cuerpo w =
    match para_cada l cuerpo w1 with (r, w2, ev2) => (r, w2, ev1 ++ ev2) end.
Proof. intros H. cbn [para_cada]. unfold mbind, M_bind. by rewrite H. Qed.

Lemma bucle_preparar (receta : Receta) (l : list string) (i : Z) (w : Mundo) :
  len (pasos receta) ≠ 0%Z →
  para_cada (enumerate i l) (λ '(i, paso),
      emitir (ImprimirPaso i (len (pasos receta)) paso) ;;
      q ← puro (floordiv (tiempo_preparacion receta) (len (pasos receta)));
      let tiempo_paso := 1 `max` q in
      sleep tiempo_paso)%Z w
  = (Valor tt, w, traza_pasos receta i l).
Proof.
  intros Hn. revert i. induction l as [|paso l IH]; intros i; [done|].
  cbn [enumerate].
  erewrite para_cada_cons; [by rewrite IH|].
  unfold floordiv. desplegar. by rewrite decide_False by done.
Qed.



Lemma preparar_receta_run_presente (n : string) (receta : Receta) (w : Mundo) :
  recetas (gestor w) !! n = Some receta →
  preparar_receta n w =
    (Valor true, w,
     MostrarTitulo ("Preparando: " +:+ nombre receta)
       :: ImprimirIngredientes (ingredientes receta)
       :: traza_pasos receta 1 (pasos receta)
       ++ [MostrarExito (salto +:+ "✅ ¡" +:+ nombre receta +:+ " listo en "
                           +:+ pretty (tiempo_preparacion receta) +:+ " minutos!")]).
Proof.
  intros Hn. unfold preparar_receta.
  erewrite mbind_Valor by reflexivity.
  rewrite decide_True by (apply elem_of_dom; eauto).
  erewrite mbind_Valor
    by (unfold getitem_recetas; erewrite mbind_Valor by reflexivity;
        simpl; rewrite Hn; reflexivity).
  erewrite mbind_Valor by reflexivity.
  erewrite mbind_Valor by reflexivity.
  destruct (decide (len (pasos receta) = 0%Z)) as [Hp|Hp].
  - destruct (pasos receta); [done|]. unfold len in Hp. simpl in Hp. lia.
  - erewrite mbind_Valor by (by apply bucle_preparar).
    erewrite mbind_Valor by reflexivity. reflexivity.
Qed.

Lemma preparar_receta_run_ausente (n : string) (w : Mundo) :
  n ∉ dom (recetas (gestor w)) →
  preparar_receta n w = (Valor false, w, [MostrarError "¡Receta no encontrada!"]).
Proof.
  intros Hn. unfold preparar_receta. desplegar. by rewrite decide_False by done.
Qed.


(** C9. [preparar_receta n] for a name that is not stored returns [False]
    after the message that the recipe was not found; it prints no step,
    sleeps not at all, and leaves the manager and the file as they were. *)
Theorem preparar_receta_ausente (n : string) (w : Mundo) :
  n ∉ dom (recetas (gestor w)) →
  valor (preparar_receta n w) = Valor false ∧
  traza (preparar_receta n w) = [MostrarError "¡Receta no encontrada!"] ∧
  pasos_impresos (traza (preparar_receta n w)) = [] ∧
  pausas (traza (preparar_receta n w)) = [] ∧
  mundo (preparar_receta n w) = w.
Proof.
  intros Hn. by rewrite preparar_receta_run_ausente.
Qed.

(** ** Cargar los datos *)

(** Every run of [cargar_datos], by cases on the file and on what the two
    comprehensions give. *)
Lemma cargar_datos_run (w : Mundo) :
  match disco w with
  | Ausente => cargar_datos w = (Valor tt, w, [])
  | a =>
      match json_load a ≫= recetas_en with
      | Lanza e => cargar_datos w = (Valor tt, w, [ErrorCargando e])
      | FueraDelModelo | Valor None => cargar_datos w = (FueraDelModelo, w, [])
      | Valor (Some rs) =>
          let w1 := mkMundo (mkGestor rs (lista_compras (gestor w))) (disco w) in
          match json_load a ≫= lista_compras_en with
          | Lanza e => cargar_datos w = (Valor tt, w1, [ErrorCargando e])
          | FueraDelModelo | Valor None => cargar_datos w = (FueraDelModelo, w1, [])
          | Valor (Some lc) =>
              cargar_datos w = (Valor tt, mkMundo (mkGestor rs lc) (disco w), [])
          end
      end
  end.
Proof.
  unfold cargar_datos, intentar, _cargar. desplegar.
  destruct (disco w) as [| |j] eqn:Hd; simpl; rewrite ?Hd; simpl; [done|done|].
  destruct (recetas_en j) as [[rs|]|e|]; simpl; try done.
  destruct (lista_compras_en j) as [[lc|]|e|]; simpl; done.
Qed.

(** The load of [archivo_estado_invalido]: the recipes are stored before the
    shopping item raises, and stay. *)
Lemma cargar_datos_estado_invalido :
  cargar_datos (arranque archivo_estado_invalido) =
    (Valor tt,
     mkMundo (mkGestor {["tortilla" := tortilla]} ∅) archivo_estado_invalido,
     [ErrorCargando KeyError]).
Proof. vm_compute. reflexivity. Qed.

(** C7, as stated, fails: the load of [archivo_estado_invalido] catches the
    [KeyError] of the shopping item and leaves the recipe of the file in the
    store. *)
Lemma carga_no_degrada_a_vacio : ¬ carga_degrada_a_vacio archivo_estado_invalido.
Proof.
  intros [_ H]. destruct (H KeyError) as [_ Hg].
  - rewrite cargar_datos_estado_invalido. apply list_elem_of_singleton. reflexivity.
  - unfold tras in Hg. rewrite cargar_datos_estado_invalido in Hg.
    apply (f_equal (λ g, bool_decide ("tortilla" ∈ dom (recetas g)))) in Hg.
    vm_compute in Hg. discriminate Hg.
Qed.

(** One case of the load, the run rewritten to its result. *)
Ltac caso_de_carga :=
  unfold valor, traza, mundo; simpl; repeat split; try done;
  intros; simplify_eq; try done;
  try (by match goal with H : _ ∈ [] |- _ => apply elem_of_nil in H end).

(** C7, as amended.  At start-up [cargar_datos] lets no exception out.  With
    no file it does nothing.  Whenever it catches an error it returns
    normally with the shopping list empty; when reading the file or building
    the recipes raises, the store is empty too; and an exception raised by a
    shopping item, the recipes built, is caught. *)
Theorem cargar_datos_captura_errores (d : Archivo) :
  let r := cargar_datos (arranque d) in
  (∀ e, valor r ≠ Lanza e) ∧
  (d = Ausente → r = (Valor tt, arranque d, [])) ∧
  (∀ e, ErrorCargando e ∈ traza r →
        valor r = Valor tt ∧ lista_compras (gestor (mundo r)) = ∅) ∧
  (d ≠ Ausente → ∀ e, json_load d ≫= recetas_en = Lanza e →
        r = (Valor tt, arranque d, [ErrorCargando e])) ∧
  (d ≠ Ausente → ∀ rs e, json_load d ≫= recetas_en = Valor (Some rs) →
        json_load d ≫= lista_compras_en = Lanza e →
        valor r = Valor tt ∧ traza r = [ErrorCargando e] ∧
        lista_compras (gestor (mundo r)) = ∅).
Proof.
  intros r. subst r. pose proof (cargar_datos_run (arranque d)) as Hrun.
  cbn [disco arranque] in Hrun.
  destruct d as [| |j].
  - rewrite Hrun. caso_de_carga.
  - simpl in Hrun. rewrite Hrun. caso_de_carga.
  - change (json_load (Contenido j) ≫= recetas_en) with (recetas_en j) in *.
    change (json_load (Contenido j) ≫= lista_compras_en) with (lista_compras_en j) in *.
    cbv zeta in Hrun. revert Hrun.
    destruct (recetas_en j) as [[rs|]|e1|];
      [destruct (lista_compras_en j) as [[lc|]|e2|]|..];
      intros ->; caso_de_carga.
Qed.

(** ** Guardar y volver a cargar *)

Lemma mapM_como_str (l : list string) : mapM como_str (JStr <$> l) = Some l.
Proof.
  induction l as [|s l IH]; [done|].
  rewrite fmap_cons. cbn [mapM como_str]. by rewrite IH.
Qed.

Lemma forallb_hashable_str (l : list string) : forallb hashable (JStr <$> l) = true.
Proof. by induction l. Qed.

Lemma CategoriaReceta_de_value (c : CategoriaReceta) :
  CategoriaReceta_de (JStr (categoria_value c)) = Valor c.
Proof. by destruct c. Qed.

Lemma EstadoCompra_de_name (e : EstadoCompra) :
  EstadoCompra_de (JStr (estado_name e)) = Valor e.
Proof. by destruct e. Qed.

Lemma Receta_de_a_json (r : Receta) :
  Receta_de (nombre r) (receta_a_json r) = Valor (Some r).
Proof.
  unfold Receta_de.
  change (getitem (receta_a_json r) "categoria")
    with (Valor (JStr (categoria_value (categoria r)))).
  change (getitem (receta_a_json r) "ingredientes")
    with (Valor (JArr (JStr <$> elements (ingredientes r)))).
  change (getitem (receta_a_json r) "pasos") with (Valor (JArr (JStr <$> pasos r))).
  change (getitem (receta_a_json r) "tiempo_preparacion")
    with (Valor (JInt (tiempo_preparacion r))).
  cbn [mbind resultado_bind]. rewrite CategoriaReceta_de_value.
  cbn [mbind resultado_bind set_de como_lista_str como_int].
  rewrite forallb_hashable_str, !mapM_como_str.
  cbn. rewrite list_to_set_elements_L. by destruct r.
Qed.

Lemma ItemCompra_de_a_json (it : ItemCompra) :
  ItemCompra_de (item_a_json it) = Valor (Some (item_nombre it, it)).
Proof.
  unfold ItemCompra_de.
  change (getitem (item_a_json it) "nombre") with (Valor (JStr (item_nombre it))).
  change (getitem (item_a_json it) "estado")
    with (Valor (JStr (estado_name (estado it)))).
  cbn [mbind resultado_bind]. rewrite EstadoCompra_de_name. cbn. by destruct it.
Qed.

Lemma foldl_insert_map_to_list {A} (m : gmap string A) :
  foldl (λ a kv, <[kv.1 := kv.2]> a) ∅ (map_to_list m) = m.
Proof.
  rewrite <- (list_to_map_to_list m) at 2.
  rewrite <- (list_to_map_proper (reverse (map_to_list m)) (map_to_list m)).
  - rewrite <- (reverse_involutive (map_to_list m)) at 1.
    generalize (reverse (map_to_list m)). intros l.
    induction l as [|[k v] l IH]; [done|].
    rewrite reverse_cons, foldl_app. simpl. by rewrite IH.
  - rewrite fmap_reverse, reverse_Permutation. apply NoDup_fst_map_to_list.
  - apply reverse_Permutation.
Qed.

Lemma recetas_de_a_json (l : list (string * Receta)) (acc : gmap string Receta) :
  (∀ k r, (k, r) ∈ l → nombre r = k) →
  recetas_de ((λ '(n, r), (n, receta_a_json r)) <$> l) (Some acc)
  = Valor (Some (foldl (λ a kv, <[kv.1 := kv.2]> a) acc l)).
Proof.
  revert acc. induction l as [|[k r] l IH]; intros acc Hl; [done|].
  cbn [fmap list_fmap recetas_de foldl].
  rewrite <- (Hl k r) by set_solver. rewrite Receta_de_a_json. simpl.
  rewrite (Hl k r) by set_solver. apply IH. intros k' r' H. apply Hl. set_solver.
Qed.

Lemma lista_compras_de_a_json (l : list (string * ItemCompra))
    (acc : gmap string ItemCompra) :
  (∀ k it, (k, it) ∈ l → item_nombre it = k) →
  lista_compras_de (item_a_json <$> l.*2) (Some acc)
  = Valor (Some (foldl (λ a kv, <[kv.1 := kv.2]> a) acc l)).
Proof.
  revert acc. induction l as [|[k it] l IH]; intros acc Hl; [done|].
  cbn [fmap list_fmap lista_compras_de foldl].
  rewrite ItemCompra_de_a_json. simpl.
  rewrite (Hl k it) by set_solver. apply IH. intros k' r' H. apply Hl. set_solver.
Qed.

Lemma recetas_en_datos_de (g : GestorRecetas) :
  nombres_coherentes g → recetas_en (datos_de g) = Valor (Some (recetas g)).
Proof.
  intros [Hr _]. unfold recetas_en, datos_de. simpl.
  rewrite recetas_de_a_json.
  - by rewrite foldl_insert_map_to_list.
  - intros k r H. apply Hr. by apply elem_of_map_to_list.
Qed.

Lemma lista_compras_en_datos_de (g : GestorRecetas) :
  nombres_coherentes g → lista_compras_en (datos_de g) = Valor (Some (lista_compras g)).
Proof.
  intros [_ Hi]. unfold lista_compras_en, datos_de, values. simpl.
  rewrite lista_compras_de_a_json.
  - by rewrite foldl_insert_map_to_list.
  - intros k r H. apply Hi. by apply elem_of_map_to_list.
Qed.

Lemma guardar_datos_run (w : Mundo) :
  guardar_datos w =
    (Valor tt, mkMundo (gestor w) (Contenido (datos_de (gestor w))),
     [MostrarExito "Datos guardados correctamente"]).
Proof. done. Qed.

(** C6. Saving a manager whose recipes and shopping items are stored under
    their names, and loading the file into a new manager, gives the manager
    that was saved: the same recipes, with the same category, set of
    ingredients, steps and time, and the same shopping items with the same
    states. *)
Theorem guardar_cargar_identidad (w : Mundo) :
  nombres_coherentes (gestor w) →
  let d := disco (mundo (guardar_datos w)) in
  valor (guardar_datos w) = Valor tt ∧
  valor (cargar_datos (arranque d)) = Valor tt ∧
  tras cargar_datos (arranque d) = gestor w.
Proof.
  intros Hn d. subst d. rewrite guardar_datos_run. unfold valor, mundo, tras. simpl.
  split; [done|].
  pose proof (cargar_datos_run (arranque (Contenido (datos_de (gestor w))))) as Hrun.
  cbn [disco arranque] in Hrun.
  change (json_load (Contenido ?j) ≫= ?f) with (f j) in Hrun.
  rewrite recetas_en_datos_de, lista_compras_en_datos_de in Hrun by done.
  rewrite Hrun. simpl. by destruct (gestor w).
Qed.

(** ** Los registros se guardan bajo su nombre

    The hypothesis of the round trip holds in every state the program
    reaches: after the load at start-up, whatever the file, and after every
    operation. *)

Lemma Receta_de_nombre (n : string) (datos_r : json) (r : Receta) :
  Receta_de n datos_r = Valor (Some r) → nombre r = n.
Proof.
  unfold Receta_de.
  destruct (getitem datos_r "categoria") as [c| |]; cbn [mbind resultado_bind]; [|done..].
  destruct (CategoriaReceta_de c) as [cat| |]; cbn [mbind resultado_bind]; [|done..].
  destruct (getitem datos_r "ingredientes") as [i| |]; cbn [mbind resultado_bind]; [|done..].
  destruct (set_de i) as [ings| |]; cbn [mbind resultado_bind]; [|done..].
  destruct (getitem datos_r "pasos") as [p| |]; cbn [mbind resultado_bind]; [|done..].
  destruct (getitem datos_r "tiempo_preparacion") as [t| |];
    cbn [mbind resultado_bind mret resultado_ret]; [|done..].
  destruct ings as [ings|]; [|done].
  destruct (como_lista_str p) as [p'|]; [|done].
  destruct (como_int t) as [t'|]; [|done]. by intros [= <-].
Qed.

Lemma ItemCompra_de_nombre (item : json) (k : string) (it : ItemCompra) :
  ItemCompra_de item = Valor (Some (k, it)) → item_nombre it = k.
Proof.
  unfold ItemCompra_de.
  destruct (getitem item "nombre") as [n| |]; cbn [mbind resultado_bind]; [|done..].
  destruct (getitem item "estado") as [e| |]; cbn [mbind resultado_bind]; [|done..].
  destruct (EstadoCompra_de e) as [est| |]; cbn [mbind resultado_bind]; [|done..].
  destruct (hashable n); [|done]. cbn [mret resultado_ret].
  destruct (como_str n) as [n'|]; [|done]. by intros [= <- <-].
Qed.

Lemma recetas_de_nombres (its : list (string * json))
    (acc : option (gmap string Receta)) (rs : gmap string Receta) :
  recetas_de its acc = Valor (Some rs) →
  (∀ a, acc = Some a → map_Forall (λ k r, nombre r = k) a) →
  map_Forall (λ k r, nombre r = k) rs.
Proof.
  revert acc. induction its as [|[n datos_r] its IH]; intros acc Hrs Hacc.
  - injection Hrs as ->. by apply Hacc.
  - cbn [recetas_de] in Hrs.
    destruct (Receta_de n datos_r) as [r| |] eqn:Hr;
      cbn [mbind resultado_bind] in Hrs; [|done..]. apply IH in Hrs; [done|].
    intros a Ha. destruct acc as [a0|]; [|done]. destruct r as [r|]; [|done].
    injection Ha as <-. apply map_Forall_insert_2; [|by apply Hacc].
    by apply Receta_de_nombre in Hr.
Qed.

Lemma lista_compras_de_nombres (l : list json)
    (acc : option (gmap string ItemCompra)) (lc : gmap string ItemCompra) :
  lista_compras_de l acc = Valor (Some lc) →
  (∀ a, acc = Some a → map_Forall (λ k it, item_nombre it = k) a) →
  map_Forall (λ k it, item_nombre it = k) lc.
Proof.
  revert acc. induction l as [|item l IH]; intros acc Hlc Hacc.
  - injection Hlc as ->. by apply Hacc.
  - cbn [lista_compras_de] in Hlc.
    destruct (ItemCompra_de item) as [kv| |] eqn:Hkv;
      cbn [mbind resultado_bind] in Hlc; [|done..]. apply IH in Hlc; [done|].
    intros a Ha. destruct acc as [a0|]; [|done]. destruct kv as [[k it]|]; [|done].
    injection Ha as <-. apply map_Forall_insert_2; [|by apply Hacc].
    by apply ItemCompra_de_nombre in Hkv.
Qed.

Lemma recetas_en_nombres (datos : json) (rs : gmap string Receta) :
  recetas_en datos = Valor (Some rs) → map_Forall (λ k r, nombre r = k) rs.
Proof.
  unfold recetas_en.
  destruct (get datos _ _) as [d| |]; cbn [mbind resultado_bind]; [|done..].
  destruct (items d) as [its| |]; cbn [mbind resultado_bind]; [|done..].
  intros H. apply (recetas_de_nombres _ _ _ H).
  intros a [= <-]. apply map_Forall_empty.
Qed.

Lemma lista_compras_en_nombres (datos : json) (lc : gmap string ItemCompra) :
  lista_compras_en datos = Valor (Some lc) →
  map_Forall (λ k it, item_nombre it = k) lc.
Proof.
  unfold lista_compras_en.
  destruct (get datos _ _) as [d| |]; cbn [mbind resultado_bind]; [|done..].
  destruct (iterar d) as [l| |]; cbn [mbind resultado_bind]; [|done..].
  intros H. apply (lista_compras_de_nombres _ _ _ H).
  intros a [= <-]. apply map_Forall_empty.
Qed.

Lemma cargar_datos_nombres (d : Archivo) :
  valor (cargar_datos (arranque d)) = Valor tt →
  nombres_coherentes (tras cargar_datos (arranque d)).
Proof.
  pose proof (cargar_datos_run (arranque d)) as Hrun. cbn [disco arranque] in Hrun.
  assert (Hvacio : nombres_coherentes gestor_nuevo)
    by (split; apply map_Forall_empty).
  unfold tras. destruct d as [| |j]; simpl in Hrun; [by rewrite Hrun..|].
  change (json_load (Contenido j) ≫= recetas_en) with (recetas_en j) in Hrun.
  change (json_load (Contenido j) ≫= lista_compras_en) with (lista_compras_en j) in Hrun.
  destruct (recetas_en j) as [[rs|]| |] eqn:Hrs; [|by rewrite Hrun..].
  apply recetas_en_nombres in Hrs. cbv zeta in Hrun.
  destruct (lista_compras_en j) as [[lc|]| |] eqn:Hlc; rewrite Hrun; try done.
  intros _. apply lista_compras_en_nombres in Hlc. by split.
Qed.



(** ** El orden de iteración no importa

    The loops give the same shopping list in whatever order the set of
    ingredients, resp. the keys of the list, are visited; and every entry of
    the shopping list can be chosen by its number. *)

Lemma foldl_asegurar_orden (l l' : list string) (lc : gmap string ItemCompra) :
  (∀ k, k ∈ l ↔ k ∈ l') → foldl asegurar lc l = foldl asegurar lc l'.
Proof.
  intros H. apply map_eq. intros k. rewrite !lookup_foldl_asegurar.
  destruct (lc !! k); [done|]. apply decide_ext, H.
Qed.

Lemma foldl_podar_orden (restantes : gset string) (l l' : list string)
    (lc : gmap string ItemCompra) :
  (∀ k, k ∈ l ↔ k ∈ l') →
  foldl (podar restantes) lc l = foldl (podar restantes) lc l'.
Proof.
  intros H. apply map_eq. intros k. rewrite !lookup_foldl_podar.
  apply decide_ext. by rewrite H.
Qed.

Lemma indexar_cualquiera {A} (l : list A) (x : A) :
  x ∈ l → ∃ num, indexar l num = Valor x.
Proof.
  intros [i Hi]%list_elem_of_lookup. exists (Z.of_nat i).
  pose proof (lookup_lt_Some _ _ _ Hi) as Hlt.
  unfold indexar, len. cbv zeta.
  rewrite (decide_False (P := (Z.of_nat i < 0)%Z)) by lia.
  rewrite decide_True by lia. by rewrite Nat2Z.id, Hi.
Qed.

(** ** Testigos *)

Lemma agregar_receta_asegura_ingredientes_testigo :
  lista_compras (tras (agregar_receta flan) (mundo (agregar_todas [tortilla] w_comprado)))
    !! "leche" = Some (mkItemCompra "leche" PENDIENTE) ∧
  lista_compras (tras (agregar_receta flan) (mundo (agregar_todas [tortilla] w_comprado)))
    !! "huevo" = Some (mkItemCompra "huevo" COMPRADO).
Proof.
  pose proof (agregar_receta_asegura_ingredientes w_comprado [tortilla] flan)
    as (_ & Hdom & _ & Hviejo).
  split; apply Hviejo; vm_compute; reflexivity.
Defined.

Lemma eliminar_receta_poda_lista_testigo :
  "flan" ∈ dom (recetas (gestor w_comprado)) ∧
  valor (eliminar_receta "flan" w_comprado) = Valor true ∧
  recetas (tras (eliminar_receta "flan") w_comprado)
    = delete "flan" (recetas (gestor w_comprado)).
Proof.
  assert (H : "flan" ∈ dom (recetas (gestor w_comprado))) by evaluar.
  split; [exact H|].
  pose proof (proj2 (eliminar_receta_poda_lista "flan" w_comprado) H) as (Hv & Hr & _).
  split; [exact Hv|exact Hr].
Defined.

Lemma eliminar_receta_conserva_referenciados_testigo :
  lista_compras (tras (eliminar_receta "flan") w_comprado) !! "huevo"
    = Some (mkItemCompra "huevo" COMPRADO).
Proof.
  apply (eliminar_receta_conserva_referenciados "flan" w_comprado "huevo").
  - vm_compute. reflexivity.
  - vm_compute. reflexivity.
  - exists "tortilla", tortilla. split; [vm_compute; reflexivity|evaluar].
Defined.

Lemma eliminar_receta_ausente_no_cambia_testigo :
  valor (eliminar_receta "pizza" w_comprado) = Valor false ∧
  mundo (eliminar_receta "pizza" w_comprado) = w_comprado.
Proof. apply (eliminar_receta_ausente_no_cambia "pizza" w_comprado). evaluar. Defined.

Lemma ingredientes_faltantes_vacio_testigo :
  ingredientes_faltantes
    (tras (ejecutar_todas [Agregar tortilla; Agregar flan; Eliminar "tortilla"])
          (arranque Ausente)) = ∅.
Proof. apply (proj2 ingredientes_faltantes_vacio). reflexivity. Defined.


Lemma guardar_cargar_identidad_testigo :
  nombres_coherentes (gestor w_comprado) ∧
  tras cargar_datos (arranque (disco (mundo (guardar_datos w_comprado))))
    = gestor w_comprado.
Proof.
  assert (H : nombres_coherentes (gestor w_comprado)) by evaluar.
  split; [exact H|]. exact (proj2 (proj2 (guardar_cargar_identidad w_comprado H))).
Defined.

Lemma cargar_datos_captura_errores_testigo :
  cargar_datos (arranque Ilegible)
    = (Valor tt, arranque Ilegible, [ErrorCargando JSONDecodeError]).
Proof.
  pose proof (cargar_datos_captura_errores Ilegible) as (_ & _ & _ & H & _).
  apply H; [discriminate|reflexivity].
Defined.


Lemma preparar_receta_ausente_testigo :
  valor (preparar_receta "pizza" w_tortilla) = Valor false ∧
  pausas (traza (preparar_receta "pizza" w_tortilla)) = [] ∧
  mundo (preparar_receta "pizza" w_tortilla) = w_tortilla.
Proof.
  pose proof (preparar_receta_ausente "pizza" w_tortilla) as (Hv & _ & _ & Hp & Hm).
  - evaluar.
  - split; [exact Hv|]. split; [exact Hp|exact Hm].
Defined.

(** * Más propiedades del código *)

(** ** La gestión de la lista de compras *)

Lemma indexar_en_rango {A} (l : list A) (i : Z) :
  (- len l ≤ i < len l)%Z → ∃ x, indexar l i = Valor x ∧ x ∈ l.
Proof.
  intros Hi. unfold indexar. cbv zeta.
  destruct (decide (i < 0)%Z) as [Hneg|Hneg].
  - rewrite decide_True by lia.
    destruct (l !! Z.to_nat (len l + i)) as [x|] eqn:Hx.
    + exists x. split; [done|]. by eapply list_elem_of_lookup_2.
    + apply lookup_ge_None in Hx. unfold len in *. lia.
  - rewrite decide_True by lia.
    destruct (l !! Z.to_nat i) as [x|] eqn:Hx.
    + exists x. split; [done|]. by eapply list_elem_of_lookup_2.
    + apply lookup_ge_None in Hx. unfold len in *. lia.
Qed.

Lemma indexar_fuera_de_rango {A} (l : list A) (i : Z) :
  ¬ (- len l ≤ i < len l)%Z → indexar l i = Lanza IndexError.
Proof.
  intros Hi. unfold indexar. cbv zeta.
  destruct (decide (i < 0)%Z); by rewrite decide_False by lia.
Qed.

Lemma len_map_to_list {A} (m : gmap string A) : len (map_to_list m) = Z.of_nat (size m).
Proof. unfold len. by rewrite length_map_to_list. Qed.


(** X2. With an item number out of range, either option of the shopping-list
    menu shows the error "Selección no válida" and changes nothing: not the
    shopping list, not the recipes, not the file. *)
Theorem gestionar_item_fuera_de_rango (opcion : opcion_lista) (num : Z) (w : Mundo) :
  let n := Z.of_nat (size (lista_compras (gestor w))) in
  ¬ (- n ≤ num < n)%Z →
  gestionar_item opcion num w = (Valor tt, w, [MostrarError "Selección no válida"]).
Proof.
  intros n Hn. subst n. rewrite <- len_map_to_list in Hn.
  unfold gestionar_item, intentar. desplegar.
  by rewrite (indexar_fuera_de_rango _ _ Hn).
Qed.

Lemma eliminar_item_un_solo (num : Z) (w : Mundo) :
  nombres_coherentes (gestor w) →
  (- Z.of_nat (size (lista_compras (gestor w))) ≤ num
   < Z.of_nat (size (lista_compras (gestor w))))%Z →
  valor (gestionar_item EliminarItem num w) = Valor tt ∧
  recetas (gestor (mundo (gestionar_item EliminarItem num w))) = recetas (gestor w) ∧
  disco (mundo (gestionar_item EliminarItem num w))
    = Contenido (datos_de (gestor (mundo (gestionar_item EliminarItem num w)))) ∧
  ∃ k, k ∈ dom (lista_compras (gestor w)) ∧
       lista_compras (gestor (mundo (gestionar_item EliminarItem num w)))
         = delete k (lista_compras (gestor w)).
Proof.
  intros [_ Hi] Hn. rewrite <- len_map_to_list in Hn.
  destruct (indexar_en_rango _ _ Hn) as ([k item] & Hv & Hin).
  apply elem_of_map_to_list in Hin. pose proof (Hi k item Hin) as Hk.
  assert (Hd : k ∈ dom (lista_compras (gestor w))) by (apply elem_of_dom; eauto).
  unfold gestionar_item, intentar, guardar_datos, _guardar, del_lista_compras.
  desplegar. rewrite Hv. simpl. rewrite Hk, decide_True by done.
  unfold valor, mundo. simpl. repeat split. eauto.
Qed.


(** ** Lo comprado no se deshace *)

Lemma ejecutar_conserva_comprado (o : operacion) (w : Mundo) (k : string)
    (it it' : ItemCompra) :
  lista_compras (gestor w) !! k = Some it → estado it = COMPRADO →
  lista_compras (gestor (mundo (ejecutar o w))) !! k = Some it' → it' = it.
Proof.
  intros Hk He. destruct o as [receta|n|num|num]; simpl.
  - rewrite agregar_receta_run. unfold mundo. simpl.
    rewrite lookup_foldl_asegurar, Hk. congruence.
  - unfold mbind, M_bind.
    destruct (decide (n ∈ dom (recetas (gestor w)))) as [Hn|Hn].
    + rewrite eliminar_receta_run_presente by done. unfold mundo. simpl.
      rewrite lookup_lista_podada. case_decide; [|done]. congruence.
    + rewrite eliminar_receta_run_ausente by done. unfold mundo. simpl. congruence.
  - pose proof (gestionar_item_run MarcarComprado num w) as Hrun.
    destruct (indexar _ num) as [[k0 item]| |].
    + destruct Hrun as [Hk0 Hrun]. destruct Hrun as [_ Hg]; [by left|].
      unfold tras in Hg. rewrite Hg. simpl.
      destruct (decide (k0 = k)) as [->|Hne].
      * rewrite lookup_insert_eq. intros [= <-].
        assert (item = it) as -> by congruence. destruct it. simpl in *. congruence.
      * rewrite lookup_insert_ne by done. congruence.
    + rewrite Hrun. unfold mundo. simpl. congruence.
    + rewrite Hrun. unfold mundo. simpl. congruence.
  - unfold gestionar_item, intentar, del_lista_compras, guardar_datos, _guardar.
    desplegar.
    destruct (indexar_casos (map_to_list (lista_compras (gestor w))) num)
      as [[[k0 item] [-> _]]| ->]; simpl; [|unfold mundo; simpl; congruence].
    destruct (decide (item_nombre item ∈ _)); unfold mundo; simpl; [|congruence].
    intros [_ H]%lookup_delete_Some. congruence.
Qed.

(** X4. No operation of the manager undoes a purchase: after a recipe
    addition, a recipe removal, a purchase mark or an item removal, an entry
    of the shopping list that was [COMPRADO] is either gone or still the same
    entry, [COMPRADO]. *)
Theorem lo_comprado_no_se_deshace (o : operacion) (w : Mundo) (k : string)
    (it : ItemCompra) :
  lista_compras (gestor w) !! k = Some it → estado it = COMPRADO →
  lista_compras (gestor (mundo (ejecutar o w))) !! k = None ∨
  lista_compras (gestor (mundo (ejecutar o w))) !! k = Some it.
Proof.
  intros Hk He.
  destruct (lista_compras (gestor (mundo (ejecutar o w))) !! k) as [it'|] eqn:Hk';
    [right|by left].
  f_equal. by eapply ejecutar_conserva_comprado.
Qed.

(** ** Más sobre la carga *)




(** X7. A file whose JSON value is not an object (a list, a string, a number,
    a truth value or null) loads nothing: the [AttributeError] of [datos.get]
    is caught and logged, and store, shopping list and file stay as they
    were. *)
Theorem cargar_datos_no_objeto (j : json) (w : Mundo) :
  disco w = Contenido j →
  (∀ ms, j ≠ JObj ms) →
  cargar_datos w = (Valor tt, w, [ErrorCargando AttributeError]).
Proof.
  intros Hd Hj. pose proof (cargar_datos_run w) as Hrun. rewrite Hd in Hrun.
  cbv beta iota zeta in Hrun.
  change (json_load (Contenido j) ≫= recetas_en) with (recetas_en j) in Hrun.
  assert (Hr : recetas_en j = Lanza AttributeError).
  { destruct j; try done. by destruct (Hj miembros). }
  by rewrite Hr in Hrun.
Qed.

Lemma recetas_de_dom (its : list (string * json))
    (acc : option (gmap string Receta)) (rs : gmap string Receta) :
  recetas_de its acc = Valor (Some rs) →
  ∃ a, acc = Some a ∧ dom rs = dom a ∪ list_to_set its.*1.
Proof.
  revert acc. induction its as [|[n datos_r] its IH]; intros acc Hrs.
  - injection Hrs as ->. exists rs. split; [done|]. set_solver.
  - cbn [recetas_de] in Hrs.
    destruct (Receta_de n datos_r) as [r| |]; cbn [mbind resultado_bind] in Hrs;
      [|done..].
    apply IH in Hrs as (a' & Ha' & Hdom).
    destruct acc as [a|]; [|done]. destruct r as [r|]; [|done].
    injection Ha' as <-. exists a. split; [done|].
    rewrite Hdom, dom_insert_L. set_solver.
Qed.

(** X8. The load takes all the recipes of the file or none: when
    [cargar_datos] returns normally on a file whose ["recetas"] member is an
    object, the store of a new manager is either empty or has exactly the
    keys of that object, each recipe carrying its key as its name. *)
Theorem cargar_datos_todas_o_ninguna (ms its : list (string * json)) :
  buscar "recetas" ms = Some (JObj its) →
  let r := cargar_datos (arranque (Contenido (JObj ms))) in
  valor r = Valor tt →
  (recetas (gestor (mundo r)) = ∅ ∨
   dom (recetas (gestor (mundo r))) = list_to_set its.*1) ∧
  map_Forall (λ k rec, nombre rec = k) (recetas (gestor (mundo r))).
Proof.
  intros Hb r Hv. subst r.
  pose proof (cargar_datos_nombres _ Hv) as [Hnom _]. split; [|done].
  clear Hnom. revert Hv.
  pose proof (cargar_datos_run (arranque (Contenido (JObj ms)))) as Hrun.
  cbn [disco arranque] in Hrun.
  change (json_load (Contenido ?j) ≫= ?f) with (f j) in Hrun.
  destruct (recetas_en (JObj ms)) as [[rs|]| |] eqn:Hrs;
    try (rewrite Hrun; unfold valor, mundo; simpl; by auto).
  assert (Hdom : dom rs = list_to_set its.*1).
  { unfold recetas_en, get in Hrs. rewrite Hb in Hrs. simpl in Hrs.
    apply recetas_de_dom in Hrs as (a & [= <-] & ->). set_solver. }
  cbv zeta in Hrun.
  destruct (lista_compras_en (JObj ms)) as [[lc|]| |];
    rewrite Hrun; unfold valor, mundo; simpl; auto.
Qed.

(** X9. [cargar_datos] never writes the file; and when it returns normally
    with no error logged on a file that is there, store and shopping list are
    those of the file alone, whatever the manager held before. *)
Theorem cargar_datos_reemplaza (w : Mundo) :
  disco (mundo (cargar_datos w)) = disco w ∧
  (disco w ≠ Ausente → cargar_datos w = (Valor tt, mundo (cargar_datos w), []) →
   gestor (mundo (cargar_datos w)) = tras cargar_datos (arranque (disco w))).
Proof.
  pose proof (cargar_datos_run w) as Hrun.
  pose proof (cargar_datos_run (arranque (disco w))) as Hrun0.
  cbn [disco arranque] in Hrun0. unfold tras.
  destruct (disco w) as [| |j] eqn:Hd; cbv beta iota zeta in Hrun, Hrun0.
  - rewrite Hrun. unfold mundo. simpl. split; [done|]. by intros [].
  - simpl in Hrun. rewrite Hrun. unfold mundo. simpl. split; [done|]. by intros _ [=].
  - change (json_load (Contenido ?j) ≫= ?f) with (f j) in *.
    destruct (recetas_en j) as [[rs|]| |];
      try (rewrite Hrun; unfold mundo; simpl; split; [done|]; by intros _ [=]).
    destruct (lista_compras_en j) as [[lc|]| |];
      rewrite Hrun, ?Hrun0; unfold mundo; simpl; (split; [done|]); by intros _ [=].
Qed.

(** ** Filtrar, faltantes, agregar y eliminar *)

Lemma NoDup_values_recetas (rs : gmap string Receta) :
  map_Forall (λ k r, nombre r = k) rs → NoDup (values rs).
Proof.
  intros Hn. unfold values. apply NoDup_fmap_2_strong; [|apply NoDup_map_to_list].
  intros [k1 r1] [k2 r2] H1%elem_of_map_to_list H2%elem_of_map_to_list Heq.
  simpl in Heq. subst r2. f_equal.
  rewrite <- (Hn k1 r1 H1). by apply Hn.
Qed.

(** X10. [filtrar_recetas] returns the stored recipes that satisfy the
    filter and no other; and in a manager whose recipes are stored under
    their names it returns each of them once. *)
Theorem filtrar_recetas_exacto (filtro : Receta → bool) (g : GestorRecetas) :
  (∀ r, r ∈ filtrar_recetas filtro g ↔
          (∃ k, recetas g !! k = Some r) ∧ filtro r = true) ∧
  (map_Forall (λ k r, nombre r = k) (recetas g) →
   NoDup (filtrar_recetas filtro g)).
Proof.
  unfold filtrar_recetas. split.
  - intros r. rewrite list_elem_of_filter, elem_of_values. tauto.
  - intros Hn. by apply NoDup_filter, NoDup_values_recetas.
Qed.

Lemma elem_of_faltantes_coherente (g : GestorRecetas) (x : string) :
  nombres_coherentes g →
  x ∈ ingredientes_faltantes g ↔ referenciado g x ∧ x ∉ dom (lista_compras g).
Proof.
  intros [_ Hi]. rewrite elem_of_ingredientes_faltantes, elem_of_dom.
  split; intros [Hr Hn]; (split; [done|]).
  - intros [it Hit]. apply Hn. exists x, it. split; [done|]. by apply Hi.
  - intros (k & it & Hk & Hx). apply Hn. exists it.
    rewrite <- Hx. by rewrite (Hi k it Hk).
Qed.

(** X11. In a manager whose records are stored under their names and whose
    shopping list has an entry for every ingredient of a stored recipe,
    after the removal of an item by a number in range
    [ingredientes_faltantes] reports the removed ingredient if a stored
    recipe has it, and nothing else. *)
Theorem faltantes_tras_eliminar_item (num : Z) (w : Mundo) :
  nombres_coherentes (gestor w) → cubierto (gestor w) →
  let n := Z.of_nat (size (lista_compras (gestor w))) in
  (- n ≤ num < n)%Z →
  let g' := tras (gestionar_item EliminarItem num) w in
  ∃ k, lista_compras g' = delete k (lista_compras (gestor w)) ∧
       ∀ x, x ∈ ingredientes_faltantes g' ↔ x = k ∧ referenciado (gestor w) k.
Proof.
  intros Hn Hc n Hnum g'. subst g' n.
  destruct (eliminar_item_un_solo num w Hn Hnum) as (_ & Hr & _ & k & Hk & Hl).
  pose proof (gestionar_item_nombres EliminarItem num w Hn) as [_ Hn'].
  unfold tras in *. exists k. split; [done|]. intros x.
  rewrite (elem_of_faltantes_coherente _ _ Hn'). rewrite Hl, dom_delete_L.
  assert (Href : ∀ y, referenciado (gestor (mundo (gestionar_item EliminarItem num w))) y
                      ↔ referenciado (gestor w) y).
  { intros y. unfold referenciado. by rewrite Hr. }
  rewrite Href. split.
  - intros [Hx Hnd]. pose proof (Hc x Hx) as Hd.
    destruct (decide (x = k)) as [->|Hne]; [done|]. destruct Hnd. set_solver.
  - intros [-> Hx]. split; [done|]. set_solver.
Qed.

(** X12. Adding a recipe under a name that is not stored and removing it
    again gives back the manager, when the keys of its shopping list were
    exactly the ingredients of its recipes: the entries the addition made for
    new ingredients are pruned, and no other entry is touched. *)
Theorem agregar_eliminar_identidad (receta : Receta) (w : Mundo) :
  nombre receta ∉ dom (recetas (gestor w)) →
  union_invariante (gestor w) →
  valor ((agregar_receta receta ;; eliminar_receta (nombre receta)) w) = Valor true ∧
  tras (agregar_receta receta ;; eliminar_receta (nombre receta)) w = gestor w.
Proof.
  intros Hn Hu. unfold tras. erewrite mbind_Valor by apply agregar_receta_run.
  rewrite eliminar_receta_run_presente
    by (simpl; rewrite dom_insert_L; set_solver).
  unfold valor, mundo. simpl. split; [done|].
  apply not_elem_of_dom in Hn. rewrite delete_insert_id by done.
  destruct (gestor w) as [rs lc] eqn:Hg. simpl in *. f_equal.
  apply map_eq. intros k. rewrite lookup_lista_podada, lookup_foldl_asegurar.
  specialize (Hu k). unfold referenciado in Hu. simpl in Hu.
  rewrite <- elem_of_union_ingredientes, elem_of_dom in Hu.
  case_decide as Hk.
  - apply Hu in Hk as [it Hit]. by rewrite Hit.
  - destruct (lc !! k) as [it|] eqn:Hit; [|done]. destruct Hk. apply Hu. eauto.
Qed.

(** ** El tiempo de la preparación *)



(** ** Lo que se muestra y lo que se elige *)

Lemma enumerate_app {A} (i : Z) (l1 l2 : list A) :
  enumerate i (l1 ++ l2) = enumerate i l1 ++ enumerate (i + len l1) l2.
Proof.
  revert i. induction l1 as [|x l1 IH]; intros i.
  - unfold len. simpl. by rewrite Z.add_0_r.
  - cbn [enumerate app]. rewrite IH. do 3 f_equal. unfold len. simpl length. lia.
Qed.


Lemma snd_enumerate {A} (i : Z) (l : list A) : (enumerate i l).*2 = l.
Proof. revert i. induction l as [|x l IH]; intros i; [done|]. simpl. by rewrite IH. Qed.

Lemma fst_enumerate {A} (i : Z) (l : list A) : (enumerate i l).*1 = seqZ i (len l).
Proof.
  revert i. induction l as [|x l IH]; intros i; [done|].
  unfold len. simpl length. rewrite Nat2Z.inj_succ, seqZ_cons by lia.
  simpl. rewrite IH. unfold len. do 2 f_equal. lia.
Qed.

Lemma length_enumerate {A} (i : Z) (l : list A) : length (enumerate i l) = length l.
Proof. by rewrite <- (length_fmap snd), snd_enumerate. Qed.


Lemma items_impresos_fmap (b : bool) (l : list (Z * ItemCompra)) :
  items_impresos ((λ '(i, item), PrintItem i (item_nombre item) b) <$> l)
  = (λ '(i, item), (i, item_nombre item)) <$> l.
Proof.
  induction l as [|[i it] l IH]; [done|].
  unfold items_impresos in *. simpl. f_equal. apply IH.
Qed.

Lemma length_pendientes_comprados (l : list ItemCompra) :
  length (filter (λ item, estado item = PENDIENTE) l
          ++ filter (λ item, estado item = COMPRADO) l) = length l.
Proof.
  rewrite length_app. induction l as [|[n e] l IH]; [done|].
  rewrite !filter_cons. destruct e; simpl;
    repeat case_decide; try done; simpl; lia.
Qed.

(** The numbered items that [mostrar_lista_compras] prints. *)
Lemma items_impresos_mostrar (g : GestorRecetas) :
  items_impresos (mostrar_lista_compras g).2 =
    (λ '(i, item), (i, item_nombre item))
      <$> enumerate 1 (filter (λ item, estado item = PENDIENTE) (values (lista_compras g))
                       ++ filter (λ item, estado item = COMPRADO) (values (lista_compras g))).
Proof.
  unfold mostrar_lista_compras.
  destruct (decide (lista_compras g = ∅)) as [->|Hne]; [done|].
  cbn [snd]. set (P := filter _ _). set (C := filter (λ item, estado item = COMPRADO) _).
  rewrite enumerate_app, fmap_app. unfold items_impresos. rewrite !omap_app.
  change (omap _ [Traza _]) with (@nil (Z * string)). rewrite app_nil_l. f_equal.
  - destruct (decide (P = [])) as [->|_]; [done|].
    rewrite <- (items_impresos_fmap false). done.
  - destruct (decide (C = [])) as [->|_]; [done|].
    rewrite <- (items_impresos_fmap true).
    destruct (decide (P = [])) as [->|_]; [done|].
    by rewrite (Z.add_comm 1).
Qed.

(** X14. [mostrar_lista_compras] returns [False] exactly when the shopping
    list is empty, and then it prints no item.  Otherwise it prints every
    entry once: the pending ones in their stored order and after them the
    purchased ones in theirs, numbered 1, 2, ... through both groups. *)
Theorem mostrar_lista_compras_numeracion (g : GestorRecetas) :
  let out := mostrar_lista_compras g in
  let pendientes :=
    filter (λ item, estado item = PENDIENTE) (values (lista_compras g)) in
  let comprados :=
    filter (λ item, estado item = COMPRADO) (values (lista_compras g)) in
  (out.1 = false ↔ lista_compras g = ∅) ∧
  (items_impresos out.2).*1 = seqZ 1 (Z.of_nat (size (lista_compras g))) ∧
  (items_impresos out.2).*2 = item_nombre <$> (pendientes ++ comprados).
Proof.
  intros out P C. subst out. rewrite items_impresos_mostrar. fold P C.
  split; [|split].
  - unfold mostrar_lista_compras. case_decide; simpl; split; done.
  - rewrite <- list_fmap_compose.
    rewrite (list_fmap_ext _ fst (enumerate 1 (P ++ C))) by (by intros ? [??]).
    rewrite fst_enumerate. f_equal. unfold len, P, C.
    rewrite length_pendientes_comprados. unfold values.
    by rewrite length_fmap, length_map_to_list.
  - rewrite <- list_fmap_compose.
    rewrite (list_fmap_ext _ (item_nombre ∘ snd) (enumerate 1 (P ++ C)))
      by (by intros ? [??]).
    by rewrite list_fmap_compose, snd_enumerate.
Qed.




(** *** Las recetas por categoría *)










(** X18. The category prompt of [agregar_receta_interactivo] takes the
    number typed, less one, as a Python index into the four categories: the
    numbers from 1 to 4 choose the category listed with them, the numbers
    from -3 to 0 choose the same as that number plus four (0 chooses the
    last, Postre), and every other number is refused. *)
Theorem categoria_por_numero (z : Z) :
  ((1 ≤ z ≤ 4)%Z →
   ∃ c, categorias !! Z.to_nat (z - 1) = Some c ∧
        indexar categorias (z - 1) = Valor c) ∧
  ((-3 ≤ z ≤ 0)%Z → indexar categorias (z - 1) = indexar categorias (z + 4 - 1)) ∧
  (¬ (-3 ≤ z ≤ 4)%Z → indexar categorias (z - 1) = Lanza IndexError).
Proof.
  split; [|split].
  - intros Hz.
    assert (z = 1 ∨ z = 2 ∨ z = 3 ∨ z = 4)%Z as [-> | [-> | [-> | ->]]] by lia;
      eexists; split; reflexivity.
  - intros Hz.
    assert (z = -3 ∨ z = -2 ∨ z = -1 ∨ z = 0)%Z as [-> | [-> | [-> | ->]]] by lia;
      reflexivity.
  - intros Hz. apply indexar_fuera_de_rango. unfold len, categorias. simpl. lia.
Qed.

(** ** Reglas de la lógica de la interfaz *)

Section reglas.
Context {A : Type}.
Implicit Types (P : Mundo → Prop) (X : anormal → Mundo → Prop).

Lemma hoare_consecuencia P P' (c : Sh A) (Q Q' : A → Mundo → Prop) X X' :
  hoare P c Q X →
  (∀ w, P' w → P w) → (∀ a w, Q a w → Q' a w) → (∀ x w, X x w → X' x w) →
  hoare P' c Q' X'.
Proof.
  intros Hc HP HQ HX ent w Hw. specialize (Hc ent w (HP w Hw)).
  destruct (fin (c ent w)); auto.
Qed.

Lemma hoare_pre P P' (c : Sh A) (Q : A → Mundo → Prop) X :
  hoare P c Q X → (∀ w, P' w → P w) → hoare P' c Q X.
Proof. intros Hc HP. eapply hoare_consecuencia; eauto. Qed.

Lemma hoare_ret P (a : A) (Q : A → Mundo → Prop) X :
  (∀ w, P w → Q a w) → hoare P (mret a) Q X.
Proof. intros H ent w Hw. by apply H. Qed.

Lemma hoare_bind {B} P (c : Sh A) (Q : A → Mundo → Prop) (k : A → Sh B)
    (R : B → Mundo → Prop) X :
  hoare P c Q X → (∀ a, hoare (Q a) (k a) R X) → hoare P (c ≫= k) R X.
Proof.
  intros Hc Hk ent w Hw. specialize (Hc ent w Hw).
  unfold mbind, Sh_bind, fin, mundo_final in *.
  destruct (c ent w) as [[[a| | | |] [ent1 w1]] out1]; simpl in *; try done.
  specialize (Hk a ent1 w1 Hc). unfold fin, mundo_final in Hk.
  by destruct (k a ent1 w1) as [[r [ent2 w2]] out2].
Qed.

Lemma hoare_raise P (e : excepcion) (Q : A → Mundo → Prop) X :
  (∀ w, P w → X (AExcepcion e) w) → hoare P (raise e) Q X.
Proof. intros H ent w Hw. by apply H. Qed.

Lemma hoare_try_except (captura : excepcion → bool) P (c h : Sh A)
    (Q : A → Mundo → Prop) X X' :
  hoare P c Q X' →
  hoare (λ w, ∃ e, captura e = true ∧ X' (AExcepcion e) w) h Q X →
  (∀ x w, X' x w → (∀ e, x = AExcepcion e → captura e = false) → X x w) →
  hoare P (try_except captura c h) Q X.
Proof.
  intros Hc Hh HX ent w Hw. specialize (Hc ent w Hw).
  unfold try_except, fin, mundo_final in *.
  destruct (c ent w) as [[[a|e| | |] [ent1 w1]] out1]; simpl in *;
    try (apply HX; [done|]; by intros e' [=]); [done|].
  destruct (captura e) eqn:He.
  - specialize (Hh ent1 w1). unfold fin, mundo_final in Hh.
    destruct (h ent1 w1) as [[r [ent2 w2]] out2]. simpl in *. apply Hh. eauto.
  - simpl. apply HX; [done|]. by intros e' [= <-].
Qed.

Lemma hoare_elevar P (c : M A) (Q : A → Mundo → Prop) X :
  hoare_M P c Q X → hoare P (elevar c) Q X.
Proof.
  intros Hc ent w Hw. specialize (Hc w Hw).
  unfold elevar, fin, mundo_final, valor, mundo in *.
  by destruct (c w) as [[[a|e|] w1] ev].
Qed.

Lemma hoare_evaluar P (r : resultado A) (Q : A → Mundo → Prop) X :
  (∀ w, P w → match r with
              | Valor a => Q a w
              | Lanza e => X (AExcepcion e) w
              | FueraDelModelo => X ANoTipado w
              end) →
  hoare P (evaluar r) Q X.
Proof. intros H ent w Hw. specialize (H w Hw). by destruct r. Qed.
End reglas.

Lemma hoare_input P (p : string) X :
  (∀ w, P w → X AEOFError w) → hoare P (input p) (λ _, P) X.
Proof. intros H ent w Hw. destruct ent; simpl; auto. Qed.

Lemma hoare_escribir P (s : salida) X : hoare P (escribir s) (λ _, P) X.
Proof. by intros ent w Hw. Qed.

Lemma hoare_print P (t : string) X : hoare P (print t) (λ _, P) X.
Proof. by intros ent w Hw. Qed.

Lemma hoare_escribir_todas P (out : list salida) X :
  hoare P (escribir_todas out) (λ _, P) X.
Proof. by intros ent w Hw. Qed.

Lemma hoare_mostrar P (f : GestorRecetas → bool * list salida) X :
  hoare P (mostrar f) (λ _, P) X.
Proof. by intros ent w Hw. Qed.

Lemma hoare_int P (B : biblioteca) (s : string) (Q : Z → Mundo → Prop) X :
  (∀ w, P w → match int_de B s with
              | Some z => Q z w
              | None => X (AExcepcion ValueError) w
              end) →
  hoare P (int B s) Q X.
Proof. intros H ent w Hw. specialize (H w Hw). unfold int. by destruct (int_de B s). Qed.

Lemma leer_pasos_no_vacios (B : biblioteca) (ent : list string) (pasos : list string) :
  Forall (λ p, p ≠ "") pasos →
  (length (leer_pasos B ent pasos).1.2 ≤ length ent)%nat ∧
  match (leer_pasos B ent pasos).1.1 with
  | Hecho ps => Forall (λ p, p ≠ "") ps ∧
                (length (leer_pasos B ent pasos).1.2 < length ent)%nat
  | EOFError => True
  | _ => False
  end.
Proof.
  revert pasos. induction ent as [|linea ent IH]; intros pasos Hp; [done|].
  cbn [leer_pasos]. case_decide; [simpl; split; [lia|split; [done|lia]]|].
  specialize (IH (if decide (strip B linea = "") then pasos
                  else pasos ++ [strip B linea])).
  destruct (leer_pasos B ent _) as [[r ent2] out]. simpl in *.
  destruct IH as [Hlen Hr].
  { case_decide; [done|]. apply Forall_app. split; [done|]. by repeat constructor. }
  split; [lia|]. destruct r; try done. destruct Hr. split; [done|lia].
Qed.

Lemma hoare_pedir_pasos P (B : biblioteca) X :
  (∀ w, P w → X AEOFError w) →
  hoare P (pedir_pasos B) (λ ps w, P w ∧ Forall (λ p, p ≠ "") ps) X.
Proof.
  intros H ent w Hw. unfold pedir_pasos, fin, mundo_final.
  pose proof (leer_pasos_no_vacios B ent [] ltac:(done)) as [_ Hr].
  destruct (leer_pasos B ent []) as [[r ent2] out]. simpl in *.
  destruct r; try done; [by destruct Hr|by apply H].
Qed.

Lemma hoare_mientras (I : Mundo → Prop) (cuerpo : Sh control)
    (Q : unit → Mundo → Prop) X :
  hoare I cuerpo (λ c w, match c with Break => Q tt w | Continue => I w end) X →
  consume cuerpo →
  hoare I (while_True cuerpo) Q X.
Proof.
  intros Hc Hcons ent w Hw. unfold while_True.
  assert (Hfuel : (length ent < S (length ent))%nat) by lia.
  revert Hfuel. generalize (S (length ent)). intros fuel. revert ent w Hw.
  induction fuel as [|fuel IH]; intros ent w Hw Hfuel; [lia|].
  cbn [mientras]. specialize (Hc ent w Hw). specialize (Hcons ent w).
  unfold mbind, Sh_bind, fin, mundo_final, resto in *.
  destruct (cuerpo ent w) as [[[[|]| | | |] [ent1 w1]] out1]; simpl in *; try done.
  specialize (IH ent1 w1 Hc ltac:(specialize (Hcons eq_refl); lia)).
  by destruct (mientras fuel cuerpo ent1 w1) as [[r [ent2 w2]] out2].
Qed.

(** ** Las líneas que se leen *)

Section lineas.
Context {A : Type}.

Lemma no_crece_ret (a : A) : no_crece (mret a : Sh A).
Proof. by intros ent w. Qed.

Lemma no_crece_bind {B} (c : Sh A) (k : A → Sh B) :
  no_crece c → (∀ a, no_crece (k a)) → no_crece (c ≫= k).
Proof.
  intros Hc Hk ent w. specialize (Hc ent w).
  unfold mbind, Sh_bind, resto in *.
  destruct (c ent w) as [[[a| | | |] [ent1 w1]] out1]; simpl in *; try done.
  specialize (Hk a ent1 w1). unfold resto in Hk.
  destruct (k a ent1 w1) as [[r [ent2 w2]] out2]. simpl in *. lia.
Qed.

Lemma no_crece_raise (e : excepcion) : no_crece (raise e : Sh A).
Proof. by intros ent w. Qed.

Lemma no_crece_try_except (captura : excepcion → bool) (c h : Sh A) :
  no_crece c → no_crece h → no_crece (try_except captura c h).
Proof.
  intros Hc Hh ent w. specialize (Hc ent w). unfold try_except, resto in *.
  destruct (c ent w) as [[[a|e| | |] [ent1 w1]] out1]; simpl in *; try done.
  destruct (captura e); [|done].
  specialize (Hh ent1 w1). unfold resto in Hh.
  destruct (h ent1 w1) as [[r [ent2 w2]] out2]. simpl in *. lia.
Qed.

Lemma no_crece_elevar (c : M A) : no_crece (elevar c).
Proof.
  intros ent w. unfold elevar, resto.
  by destruct (c w) as [[[a|e|] w1] ev].
Qed.

Lemma no_crece_evaluar (r : resultado A) : no_crece (evaluar r).
Proof. intros ent w. by destruct r. Qed.

Lemma estricto_bind_izq {B} (c : Sh A) (k : A → Sh B) :
  estricto c → (∀ a, no_crece (k a)) → estricto (c ≫= k).
Proof.
  intros Hc Hk ent w. specialize (Hc ent w).
  unfold mbind, Sh_bind, resto, fin in *.
  destruct (c ent w) as [[[a| | | |] [ent1 w1]] out1]; simpl in *;
    try (destruct Hc as [Hc|Hc]; [done|by right]); [|by left].
  specialize (Hk a ent1 w1). unfold resto in Hk.
  destruct (k a ent1 w1) as [[r [ent2 w2]] out2]. simpl in *.
  destruct Hc as [Hc|Hc]; [done|]. right. lia.
Qed.

Lemma estricto_bind_der {B} (c : Sh A) (k : A → Sh B) :
  (∀ ent w, ∃ a w1 out, c ent w = (Hecho a, (ent, w1), out)) →
  (∀ a, estricto (k a)) → estricto (c ≫= k).
Proof.
  intros Hc Hk ent w. destruct (Hc ent w) as (a & w1 & out & Hcw).
  unfold mbind, Sh_bind, resto, fin. rewrite Hcw.
  specialize (Hk a ent w1). unfold resto, fin in Hk.
  destruct (k a ent w1) as [[r [ent2 w2]] out2]. simpl in *. exact Hk.
Qed.

Lemma estricto_try_except (captura : excepcion → bool) (c h : Sh A) :
  estricto c → no_crece h → estricto (try_except captura c h).
Proof.
  intros Hc Hh ent w. specialize (Hc ent w). unfold try_except, resto, fin in *.
  destruct (c ent w) as [[[a|e| | |] [ent1 w1]] out1]; simpl in *; try done.
  destruct (captura e); [|done].
  specialize (Hh ent1 w1). unfold resto in Hh.
  destruct (h ent1 w1) as [[r [ent2 w2]] out2]. simpl in *.
  destruct Hc as [Hc|Hc]; [done|]. right. lia.
Qed.
End lineas.

Lemma no_crece_input (p : string) : no_crece (input p).
Proof. intros [|linea ent] w; unfold resto; simpl; lia. Qed.

Lemma estricto_input (p : string) : estricto (input p).
Proof. intros [|linea ent] w; [by left|right; unfold resto; simpl; lia]. Qed.

Lemma no_crece_escribir (s : salida) : no_crece (escribir s).
Proof. by intros ent w. Qed.

Lemma no_crece_print (t : string) : no_crece (print t).
Proof. by intros ent w. Qed.

Lemma no_crece_escribir_todas (out : list salida) : no_crece (escribir_todas out).
Proof. by intros ent w. Qed.

Lemma no_crece_mostrar (f : GestorRecetas → bool * list salida) : no_crece (mostrar f).
Proof. by intros ent w. Qed.

Lemma no_crece_int (B : biblioteca) (s : string) : no_crece (int B s).
Proof. intros ent w. unfold int. by destruct (int_de B s). Qed.

Lemma no_crece_pedir_pasos (B : biblioteca) : no_crece (pedir_pasos B).
Proof.
  intros ent w. unfold pedir_pasos, resto.
  pose proof (leer_pasos_no_vacios B ent [] ltac:(done)) as [Hlen _].
  by destruct (leer_pasos B ent []) as [[r ent2] out].
Qed.

Lemma no_crece_mientras (fuel : nat) (cuerpo : Sh control) :
  no_crece cuerpo → no_crece (mientras fuel cuerpo).
Proof.
  intros Hc. induction fuel as [|fuel IH]; [by intros ent w|].
  cbn [mientras]. apply no_crece_bind; [done|].
  intros [|]; [apply no_crece_ret|done].
Qed.

Lemma no_crece_while_True (cuerpo : Sh control) :
  no_crece cuerpo → no_crece (while_True cuerpo).
Proof. intros Hc ent w. by apply no_crece_mientras. Qed.

Lemma estricto_consume (c : Sh control) : estricto c → consume c.
Proof. intros Hc ent w Hfin. destruct (Hc ent w) as [H|H]; [congruence|done]. Qed.

Lemma consume_bind_der {A} (c : Sh A) (k : A → Sh control) :
  (∀ ent w, ∃ a w1 out, c ent w = (Hecho a, (ent, w1), out)) →
  (∀ a, consume (k a)) → consume (c ≫= k).
Proof.
  intros Hc Hk ent w. destruct (Hc ent w) as (a & w1 & out & Hcw).
  unfold mbind, Sh_bind, resto, fin. rewrite Hcw.
  specialize (Hk a ent w1). unfold resto, fin in Hk.
  destruct (k a ent w1) as [[r [ent2 w2]] out2]. simpl in *. exact Hk.
Qed.

(** Each step of a computation gives no line back. *)
Ltac sin_crecer :=
  repeat first
    [ assumption
    | progress cbv zeta
    | apply no_crece_ret
    | apply no_crece_input
    | apply no_crece_print
    | apply no_crece_escribir
    | apply no_crece_escribir_todas
    | apply no_crece_mostrar
    | apply no_crece_elevar
    | apply no_crece_evaluar
    | apply no_crece_int
    | apply no_crece_raise
    | apply no_crece_pedir_pasos
    | apply no_crece_try_except
    | apply no_crece_while_True
    | apply no_crece_bind; [|intros ?]
    | match goal with |- no_crece (match ?x with _ => _ end) => destruct x end ].

(** A step that reads nothing and returns. *)
Ltac sin_leer := intros ??; eexists _, _, _; reflexivity.

Lemma no_crece_ronda_agregar (B : biblioteca) : no_crece (ronda_agregar B).
Proof. unfold ronda_agregar. sin_crecer. Qed.

Lemma no_crece_ronda_eliminar (B : biblioteca) : no_crece (ronda_eliminar B).
Proof. unfold ronda_eliminar. sin_crecer. Qed.

Lemma no_crece_ronda_preparar (B : biblioteca) : no_crece (ronda_preparar B).
Proof. unfold ronda_preparar. sin_crecer. Qed.

Lemma no_crece_ronda_lista_compras (B : biblioteca) : no_crece (ronda_lista_compras B).
Proof. unfold ronda_lista_compras. sin_crecer. Qed.

Lemma no_crece_ronda_main (B : biblioteca) : no_crece (ronda_main B).
Proof.
  unfold ronda_main, mostrar_menu, agregar_receta_interactivo,
    eliminar_receta_interactivo, preparar_receta_interactivo, gestionar_lista_compras.
  pose proof (no_crece_ronda_agregar B). pose proof (no_crece_ronda_eliminar B).
  pose proof (no_crece_ronda_preparar B). pose proof (no_crece_ronda_lista_compras B).
  sin_crecer.
Qed.

Lemma consume_ronda_agregar (B : biblioteca) : consume (ronda_agregar B).
Proof.
  apply estricto_consume. unfold ronda_agregar.
  apply estricto_bind_der; [sin_leer|intros _].
  apply estricto_bind_izq; [apply estricto_input|intros linea]. sin_crecer.
Qed.

Lemma consume_ronda_eliminar (B : biblioteca) : consume (ronda_eliminar B).
Proof.
  unfold ronda_eliminar. apply consume_bind_der; [sin_leer|intros hay].
  destruct (negb hay); [by intros ent w|].
  apply estricto_consume, estricto_try_except; [|sin_crecer].
  apply estricto_bind_izq; [apply estricto_input|intros linea]. sin_crecer.
Qed.

Lemma consume_ronda_preparar (B : biblioteca) : consume (ronda_preparar B).
Proof.
  unfold ronda_preparar. apply consume_bind_der; [sin_leer|intros hay].
  destruct (negb hay); [by intros ent w|].
  apply estricto_consume, estricto_try_except; [|sin_crecer].
  apply estricto_bind_izq; [apply estricto_input|intros linea]. sin_crecer.
Qed.

Lemma consume_ronda_lista_compras (B : biblioteca) : consume (ronda_lista_compras B).
Proof.
  unfold ronda_lista_compras. apply consume_bind_der; [sin_leer|intros hay].
  destruct (negb hay); [by intros ent w|].
  apply estricto_consume.
  do 3 (apply estricto_bind_der; [sin_leer|intros _]).
  apply estricto_bind_izq; [apply estricto_input|intros linea]. sin_crecer.
Qed.

Lemma consume_ronda_main (B : biblioteca) : consume (ronda_main B).
Proof.
  apply estricto_consume. unfold ronda_main.
  apply estricto_bind_izq.
  - unfold mostrar_menu.
    do 10 (apply estricto_bind_der; [sin_leer|intros _]). apply estricto_input.
  - intros opcion.
    unfold agregar_receta_interactivo,
      eliminar_receta_interactivo, preparar_receta_interactivo, gestionar_lista_compras.
    pose proof (no_crece_ronda_agregar B). pose proof (no_crece_ronda_eliminar B).
    pose proof (no_crece_ronda_preparar B). pose proof (no_crece_ronda_lista_compras B).
    sin_crecer.
Qed.

(** ** Ejecución simbólica *)

Section simbolica.
Context {A B : Type}.
Implicit Types (P : Mundo → Prop) (X : anormal → Mundo → Prop).

Lemma hoare_puntual P (c : Sh A) (Q : A → Mundo → Prop) X :
  (∀ w, P w → hoare (eq w) c Q X) → hoare P c Q X.
Proof. intros H ent w Hw. by apply (H w Hw ent w). Qed.

Lemma hoare_extraer P (φ : Prop) (c : Sh A) (Q : A → Mundo → Prop) X :
  (φ → hoare P c Q X) → hoare (λ w, P w ∧ φ) c Q X.
Proof. intros H ent w [Hw Hφ]. by apply H. Qed.

Lemma hoare_ret_bind P (a : A) (k : A → Sh B) (R : B → Mundo → Prop) X :
  hoare P (k a) R X → hoare P (mret a ≫= k) R X.
Proof.
  intros Hk ent w Hw. specialize (Hk ent w Hw).
  unfold mbind, Sh_bind, mret, Sh_ret, fin, mundo_final in *.
  by destruct (k a ent w) as [[r [ent2 w2]] out2].
Qed.

Lemma hoare_raise_bind P (e : excepcion) (k : A → Sh B) (R : B → Mundo → Prop) X :
  (∀ w, P w → X (AExcepcion e) w) → hoare P (raise e ≫= k) R X.
Proof. intros H ent w Hw. by apply H. Qed.

Lemma hoare_elevar_valor (w : Mundo) (c : M A) (a : A) (k : A → Sh B)
    (R : B → Mundo → Prop) X :
  valor (c w) = Valor a →
  hoare (eq (mundo (c w))) (k a) R X →
  hoare (eq w) (elevar c ≫= k) R X.
Proof.
  intros Hc Hk ent w' <-. unfold mbind, Sh_bind, elevar, fin, mundo_final, valor, mundo in *.
  destruct (c w) as [[r w1] ev]. simpl in *. subst r.
  specialize (Hk ent w1 eq_refl).
  by destruct (k a ent w1) as [[r [ent2 w2]] out2].
Qed.
End simbolica.

Lemma hoare_M_emitir P (ev : evento) X : hoare_M P (emitir ev) (λ _, P) X.
Proof. by intros w Hw. Qed.

(** A step that writes and changes nothing. *)
Ltac avanza :=
  eapply hoare_bind;
  [ first [ apply hoare_print | apply hoare_escribir | apply hoare_escribir_todas
          | apply hoare_mostrar | apply hoare_elevar, hoare_M_emitir ]
  | intros ? ]; cbv beta.

Lemma solo_EOF_eq (w : Mundo) : ∀ w', w = w' → solo_EOF (eq w) AEOFError w'.
Proof. by intros w' <-. Qed.

Lemma salvo_captura_EOF (captura : excepcion → bool) (J : Mundo → Prop) :
  ∀ w, J w → salvo_captura captura J AEOFError w.
Proof. intros w Hw. split; [by left|done]. Qed.

Lemma salvo_captura_ValueError (J : Mundo → Prop) :
  ∀ w, J w → salvo_captura es_ValueError_o_IndexError J (AExcepcion ValueError) w.
Proof. intros w Hw. split; [right; by eexists|done]. Qed.

Lemma salvo_captura_solo_ValueError (J : Mundo → Prop) :
  ∀ w, J w → salvo_captura es_ValueError J (AExcepcion ValueError) w.
Proof. intros w Hw. split; [right; by eexists|done]. Qed.

Lemma salvo_captura_IndexError (J : Mundo → Prop) :
  ∀ w, J w → salvo_captura es_ValueError_o_IndexError J (AExcepcion IndexError) w.
Proof. intros w Hw. split; [right; by eexists|done]. Qed.

Lemma salvo_captura_escapa (captura : excepcion → bool) (J : Mundo → Prop)
    (x : anormal) (w : Mundo) :
  salvo_captura captura J x w →
  (∀ e, x = AExcepcion e → captura e = false) →
  solo_EOF J x w.
Proof.
  intros [[->|(e & -> & He)] Hw] Hno; [done|].
  specialize (Hno e eq_refl). congruence.
Qed.

Lemma salvo_captura_capturada (captura : excepcion → bool) (J : Mundo → Prop)
    (w : Mundo) :
  (∃ e, captura e = true ∧ salvo_captura captura J (AExcepcion e) w) → J w.
Proof. by intros (e & _ & _ & Hw). Qed.

(** [try: c except E: h] where [c] keeps [J] however it ends and [h] starts
    from [J]. *)
Lemma hoare_try_captura {A} (captura : excepcion → bool) (J : Mundo → Prop)
    (c h : Sh A) (Q : A → Mundo → Prop) :
  hoare J c Q (salvo_captura captura J) →
  hoare J h Q (solo_EOF J) →
  hoare J (try_except captura c h) Q (solo_EOF J).
Proof.
  intros Hc Hh. eapply hoare_try_except; [exact Hc| |apply salvo_captura_escapa].
  eapply hoare_pre; [exact Hh|]. apply salvo_captura_capturada.
Qed.

(** ** [agregar_receta_interactivo] *)

Lemma ronda_agregar_hoare (B : biblioteca) (w0 : Mundo) :
  hoare (eq w0) (ronda_agregar B)
    (λ c w, match c with
            | Continue => w0 = w
            | Break => ∃ r, receta_valida r ∧
                            w = mundo (guardar_datos (mundo (agregar_receta r w0)))
            end)
    (solo_EOF (eq w0)).
Proof.
  unfold ronda_agregar. avanza.
  eapply hoare_bind; [apply hoare_input, solo_EOF_eq|intros linea; cbv beta zeta].
  case_decide as Hnombre; [avanza; by apply hoare_ret|].
  avanza. avanza.
  eapply hoare_bind with (Q := λ _, eq w0).
  { apply hoare_try_captura.
    - eapply hoare_bind; [apply hoare_input, salvo_captura_EOF|intros linea2; cbv beta].
      unfold int. destruct (int_de B linea2) as [z|];
        [|apply hoare_raise_bind, salvo_captura_ValueError].
      apply hoare_ret_bind. cbv zeta.
      destruct (indexar_casos categorias (z - 1)) as [(c & -> & _)| ->].
      + apply hoare_ret_bind. by apply hoare_ret.
      + apply hoare_raise_bind, salvo_captura_IndexError.
    - avanza. by apply hoare_ret. }
  intros [categoria|]; [|by apply hoare_ret].
  avanza.
  eapply hoare_bind; [apply hoare_input, solo_EOF_eq|intros linea3; cbv beta zeta].
  avanza.
  eapply hoare_bind; [apply hoare_pedir_pasos, solo_EOF_eq|intros pasos; cbv beta].
  apply hoare_extraer. intros Hpasos.
  case_decide as Hvacio; [avanza; by apply hoare_ret|].
  eapply hoare_bind with (Q := λ leido w, w0 = w ∧ ∀ t, leido = Some t → (0 < t)%Z).
  { apply hoare_try_captura.
    - eapply hoare_bind; [apply hoare_input, salvo_captura_EOF|intros linea4; cbv beta].
      unfold int. destruct (int_de B linea4) as [t|];
        [|apply hoare_raise_bind, salvo_captura_solo_ValueError].
      apply hoare_ret_bind. case_decide.
      + apply hoare_raise, salvo_captura_solo_ValueError.
      + apply hoare_ret. intros w <-. split; [done|]. intros ? [= <-]. lia.
    - avanza. apply hoare_ret. by intros w <-. }
  intros leido. apply hoare_extraer. intros Hleido.
  destruct leido as [t|]; [|by apply hoare_ret].
  eapply hoare_elevar_valor; [by rewrite agregar_receta_run|].
  eapply hoare_elevar_valor; [done|].
  apply hoare_ret. intros w <-. eexists. split; [|reflexivity].
  repeat split; simpl; try done; [by apply Hleido|].
  unfold conjunto_ingredientes. rewrite elem_of_list_to_set, list_elem_of_filter.
  by intros [? _].
Qed.

Lemma agregar_receta_interactivo_hoare (B : biblioteca) (w0 : Mundo) :
  hoare (eq w0) (agregar_receta_interactivo B)
    (λ _ w, ∃ r, receta_valida r ∧
                 w = mundo (guardar_datos (mundo (agregar_receta r w0))))
    (solo_EOF (eq w0)).
Proof.
  apply hoare_mientras; [|apply consume_ronda_agregar].
  eapply hoare_consecuencia; [apply ronda_agregar_hoare|done| |done].
  by intros [|] w.
Qed.


Lemma hoare_leer {B} (w : Mundo) (k : GestorRecetas → Sh B)
    (R : B → Mundo → Prop) (X : anormal → Mundo → Prop) :
  hoare (eq w) (k (gestor w)) R X → hoare (eq w) (elevar leer ≫= k) R X.
Proof. intros Hk. by eapply hoare_elevar_valor. Qed.

Lemma hoare_elevar_fin {A} (w : Mundo) (c : M A) (a : A)
    (Q : A → Mundo → Prop) (X : anormal → Mundo → Prop) :
  valor (c w) = Valor a → Q a (mundo (c w)) → hoare (eq w) (elevar c) Q X.
Proof.
  intros Hc HQ ent w' <-. unfold elevar, fin, mundo_final, valor, mundo in *.
  destruct (c w) as [[r w1] ev]. simpl in *. by subst r.
Qed.

(** [try: c except E: h] from a known world. *)
Lemma hoare_try_captura_desde {A} (captura : excepcion → bool) (P J : Mundo → Prop)
    (c h : Sh A) (Q : A → Mundo → Prop) :
  hoare P c Q (salvo_captura captura J) →
  hoare J h Q (solo_EOF J) →
  hoare P (try_except captura c h) Q (solo_EOF J).
Proof.
  intros Hc Hh. eapply hoare_try_except; [exact Hc| |apply salvo_captura_escapa].
  eapply hoare_pre; [exact Hh|]. apply salvo_captura_capturada.
Qed.

(** ** [eliminar_receta_interactivo] *)

Lemma ronda_eliminar_hoare (B : biblioteca) (w0 : Mundo) :
  hoare (eq w0) (ronda_eliminar B)
    (λ c w, match c with
            | Continue => w0 = w
            | Break =>
                w = w0 ∨
                ∃ r, r ∈ values (recetas (gestor w0)) ∧
                     valor (eliminar_receta (nombre r) w0) = Valor true ∧
                     w = mundo (guardar_datos (mundo (eliminar_receta (nombre r) w0)))
            end)
    (solo_EOF (eq w0)).
Proof.
  unfold ronda_eliminar. avanza. destruct (negb a).
  { avanza. apply hoare_ret. intros w <-. by left. }
  apply hoare_try_captura; [|avanza; by apply hoare_ret].
  eapply hoare_bind; [apply hoare_input, salvo_captura_EOF|intros opcion; cbv beta].
  case_decide; [apply hoare_ret; intros w <-; by left|].
  unfold int. destruct (int_de B opcion) as [z|];
    [|apply hoare_raise_bind, salvo_captura_ValueError].
  apply hoare_ret_bind. cbv zeta. apply hoare_leer.
  destruct (indexar_casos (values (recetas (gestor w0))) (z - 1)) as [(r & -> & Hr)| ->];
    [|apply hoare_raise_bind, salvo_captura_IndexError].
  apply hoare_ret_bind.
  destruct (decide (nombre r ∈ dom (recetas (gestor w0)))) as [Hdom|Hdom].
  - eapply hoare_elevar_valor; [by rewrite eliminar_receta_run_presente|].
    eapply hoare_elevar_valor; [done|].
    apply hoare_ret. intros w <-. right. exists r.
    split; [done|]. split; [by rewrite eliminar_receta_run_presente|done].
  - eapply hoare_elevar_valor; [by rewrite eliminar_receta_run_ausente|].
    apply hoare_ret_bind, hoare_ret. intros w <-. left.
    by rewrite eliminar_receta_run_ausente.
Qed.

Lemma eliminar_receta_interactivo_hoare (B : biblioteca) (w0 : Mundo) :
  hoare (eq w0) (eliminar_receta_interactivo B)
    (λ _ w, w = w0 ∨
            ∃ r, r ∈ values (recetas (gestor w0)) ∧
                 valor (eliminar_receta (nombre r) w0) = Valor true ∧
                 w = mundo (guardar_datos (mundo (eliminar_receta (nombre r) w0))))
    (solo_EOF (eq w0)).
Proof.
  apply hoare_mientras; [|apply consume_ronda_eliminar].
  eapply hoare_consecuencia; [apply ronda_eliminar_hoare|done| |done].
  by intros [|] w.
Qed.


(** ** [preparar_receta_interactivo] *)

Lemma preparar_receta_sin_cambio (n : string) (w : Mundo) :
  ∃ b, valor (preparar_receta n w) = Valor b ∧ mundo (preparar_receta n w) = w.
Proof.
  destruct (recetas (gestor w) !! n) as [receta|] eqn:Hn.
  - exists true. by rewrite (preparar_receta_run_presente n receta).
  - exists false. rewrite preparar_receta_run_ausente; [done|].
    by apply not_elem_of_dom.
Qed.

Lemma ronda_preparar_hoare (B : biblioteca) (w0 : Mundo) :
  hoare (eq w0) (ronda_preparar B) (λ _, eq w0) (solo_EOF (eq w0)).
Proof.
  unfold ronda_preparar. avanza. destruct (negb a).
  { avanza. by apply hoare_ret. }
  apply hoare_try_captura; [|avanza; by apply hoare_ret].
  eapply hoare_bind; [apply hoare_input, salvo_captura_EOF|intros opcion; cbv beta].
  case_decide; [by apply hoare_ret|].
  unfold int. destruct (int_de B opcion) as [z|];
    [|apply hoare_raise_bind, salvo_captura_ValueError].
  apply hoare_ret_bind. cbv zeta. apply hoare_leer.
  destruct (indexar_casos (values (recetas (gestor w0))) (z - 1)) as [(r & -> & Hr)| ->];
    [|apply hoare_raise_bind, salvo_captura_IndexError].
  apply hoare_ret_bind.
  destruct (preparar_receta_sin_cambio (nombre r) w0) as (b & Hb & Hw).
  eapply hoare_elevar_valor; [exact Hb|]. rewrite Hw.
  destruct b; by apply hoare_ret.
Qed.

Lemma preparar_receta_interactivo_hoare (B : biblioteca) (w0 : Mundo) :
  hoare (eq w0) (preparar_receta_interactivo B) (λ _, eq w0) (solo_EOF (eq w0)).
Proof.
  apply hoare_mientras; [|apply consume_ronda_preparar].
  eapply hoare_consecuencia; [apply ronda_preparar_hoare|done| |done].
  by intros [|] w.
Qed.


(** ** [gestionar_lista_compras] *)

Section lista.
Variable B : biblioteca.
Variable I : Mundo → Prop.

(** [item.estado = EstadoCompra.COMPRADO] and [guardar_datos] keep [I]. *)
Hypothesis I_marcar : ∀ w k item,
  I w → lista_compras (gestor w) !! k = Some item →
  I (mundo (guardar_datos (mundo (asignar_lista_compras
       (<[k := mkItemCompra (item_nombre item) COMPRADO]> (lista_compras (gestor w)))
       w)))).

(** [del gestor.lista_compras[item.nombre]] finds its key, and with
    [guardar_datos] it keeps [I]. *)
Hypothesis I_eliminar : ∀ w k item,
  I w → lista_compras (gestor w) !! k = Some item →
  valor (del_lista_compras (item_nombre item) w) = Valor tt ∧
  I (mundo (guardar_datos (mundo (del_lista_compras (item_nombre item) w)))).

Lemma ronda_lista_compras_hoare :
  hoare I (ronda_lista_compras B) (λ _, I) (solo_EOF I).
Proof using I_marcar I_eliminar.
  apply hoare_puntual. intros w0 Hw0.
  assert (∀ w, w0 = w → I w) as Hfin by (by intros w <-).
  assert (∀ w, w0 = w → solo_EOF I AEOFError w) as HEOF by (by intros w <-).
  unfold ronda_lista_compras. avanza. destruct (negb a).
  { avanza. by apply hoare_ret. }
  avanza. avanza. avanza.
  eapply hoare_bind; [by apply hoare_input|intros opcion; cbv beta].
  case_decide; [by apply hoare_ret|].
  case_decide; [avanza; by apply hoare_ret|].
  apply hoare_try_captura_desde; [|avanza; by apply hoare_ret].
  eapply hoare_bind;
    [apply hoare_input; intros w <-; by apply salvo_captura_EOF
    |intros num; cbv beta].
  case_decide; [by apply hoare_ret|].
  unfold int. destruct (int_de B num) as [z|];
    [|apply hoare_raise_bind; intros w <-; by apply salvo_captura_ValueError].
  apply hoare_ret_bind. cbv zeta. apply hoare_leer.
  destruct (indexar_casos (map_to_list (lista_compras (gestor w0))) (z - 1))
    as [([k item] & -> & Hk%elem_of_map_to_list)| ->];
    [|apply hoare_raise_bind; intros w <-; by apply salvo_captura_IndexError].
  apply hoare_ret_bind.
  eapply hoare_bind with (Q := λ _, I); [|intros _; by apply hoare_ret].
  case_decide; [|case_decide; [|by apply hoare_ret]].
  - eapply hoare_elevar_valor; [done|].
    eapply hoare_elevar_valor; [done|].
    eapply hoare_elevar_fin; [done|]. by apply I_marcar.
  - destruct (I_eliminar w0 k item Hw0 Hk) as [Hdel HI].
    eapply hoare_elevar_valor; [exact Hdel|].
    eapply hoare_elevar_valor; [done|].
    by eapply hoare_elevar_fin.
Qed.

Lemma gestionar_lista_compras_hoare :
  hoare I (gestionar_lista_compras B) (λ _, I) (solo_EOF I).
Proof using I_marcar I_eliminar.
  apply hoare_mientras; [|apply consume_ronda_lista_compras].
  eapply hoare_consecuencia; [apply ronda_lista_compras_hoare|done| |done].
  by intros [|] w.
Qed.
End lista.

Lemma del_lista_compras_run (k : string) (w : Mundo) :
  k ∈ dom (lista_compras (gestor w)) →
  del_lista_compras k w
  = (Valor tt,
     mkMundo (mkGestor (recetas (gestor w)) (delete k (lista_compras (gestor w))))
             (disco w), []).
Proof. intros Hk. unfold del_lista_compras. desplegar. by rewrite decide_True. Qed.

Lemma marcar_nombres (w : Mundo) (k : string) (item : ItemCompra) :
  nombres_coherentes (gestor w) → lista_compras (gestor w) !! k = Some item →
  nombres_coherentes
    (mkGestor (recetas (gestor w))
       (<[k := mkItemCompra (item_nombre item) COMPRADO]> (lista_compras (gestor w)))).
Proof.
  intros [Hr Hl] Hk. split; [done|]. simpl.
  apply map_Forall_insert_2; [|done]. by apply (Hl k item).
Qed.

Lemma quitar_nombres (w : Mundo) (k : string) :
  nombres_coherentes (gestor w) →
  nombres_coherentes
    (mkGestor (recetas (gestor w)) (delete k (lista_compras (gestor w)))).
Proof. intros [Hr Hl]. split; [done|]. by apply map_Forall_delete. Qed.





(** ** [main] *)

Lemma se_mantiene_guardado (w0 w : Mundo) :
  nombres_coherentes (gestor w) → (recetas_validas w0 → recetas_validas w) →
  se_mantiene w0 (mundo (guardar_datos w)).
Proof. intros Hn Hv. split; [done|]. split; [by right|done]. Qed.

Lemma se_mantiene_agregar (w0 w : Mundo) (r : Receta) :
  receta_valida r → se_mantiene w0 w →
  se_mantiene w0 (mundo (guardar_datos (mundo (agregar_receta r w)))).
Proof.
  intros Hr (Hn & _ & Hv). apply se_mantiene_guardado.
  - by apply agregar_receta_nombres.
  - intros H0. unfold recetas_validas. rewrite agregar_receta_run. simpl.
    apply map_Forall_insert_2; [done|by apply Hv].
Qed.

Lemma se_mantiene_eliminar (w0 w : Mundo) (n : string) :
  se_mantiene w0 w →
  se_mantiene w0 (mundo (guardar_datos (mundo (eliminar_receta n w)))).
Proof.
  intros (Hn & _ & Hv). apply se_mantiene_guardado.
  - by apply eliminar_receta_nombres.
  - intros H0. unfold recetas_validas.
    destruct (decide (n ∈ dom (recetas (gestor w)))) as [Hd|Hd].
    + rewrite eliminar_receta_run_presente by done. simpl.
      apply map_Forall_delete. by apply Hv.
    + rewrite eliminar_receta_run_ausente by done. by apply Hv.
Qed.

Lemma gestionar_lista_compras_mantiene (B : biblioteca) (w0 : Mundo) :
  hoare (se_mantiene w0) (gestionar_lista_compras B) (λ _, se_mantiene w0)
    (solo_EOF (se_mantiene w0)).
Proof.
  apply gestionar_lista_compras_hoare.
  - intros w k item (Hn & _ & Hv) Hk. split; [by apply marcar_nombres|].
    split; [by right|done].
  - intros w k item (Hn & _ & Hv) Hk.
    assert (item_nombre item = k) as -> by (by apply (proj2 Hn k item)).
    rewrite del_lista_compras_run by (by apply elem_of_dom).
    split; [done|]. split; [by apply quitar_nombres|]. split; [by right|done].
Qed.

(** A dialogue that starts from a known world, inside a loop that keeps [J]. *)
Lemma hoare_desde_eq {A} (J : Mundo → Prop) (c : Sh A) (Q : Mundo → A → Mundo → Prop) :
  (∀ w, hoare (eq w) c (Q w) (solo_EOF (eq w))) →
  (∀ w a w', J w → Q w a w' → J w') →
  hoare J c (λ _, J) (solo_EOF J).
Proof.
  intros Hc HJ. apply hoare_puntual. intros w Hw.
  eapply hoare_consecuencia; [apply Hc|done| |].
  - intros a w' HQ. by eapply HJ.
  - intros x w' [-> <-]. by split.
Qed.

Lemma mostrar_menu_hoare (J : Mundo → Prop) :
  hoare J mostrar_menu (λ _, J) (solo_EOF J).
Proof. unfold mostrar_menu. do 10 avanza. by apply hoare_input. Qed.

Lemma ronda_main_hoare (B : biblioteca) (w0 : Mundo) :
  hoare (se_mantiene w0) (ronda_main B)
    (λ c w, match c with
            | Continue => se_mantiene w0 w
            | Break => se_mantiene w0 w ∧ sincronizado w
            end)
    (solo_EOF (se_mantiene w0)).
Proof.
  assert (∀ w, se_mantiene w0 w → solo_EOF (se_mantiene w0) AEOFError w) as HEOF by done.
  unfold ronda_main.
  eapply hoare_bind; [apply mostrar_menu_hoare|intros opcion; cbv beta].
  repeat case_decide.
  - avanza. eapply hoare_bind; [by apply hoare_input|intros ?; cbv beta]. by apply hoare_ret.
  - eapply hoare_bind with (Q := λ _, se_mantiene w0); [|intros _; by apply hoare_ret].
    apply (hoare_desde_eq _ _ _ (agregar_receta_interactivo_hoare B)).
    intros w [] w' Hw (r & Hr & ->). by apply se_mantiene_agregar.
  - eapply hoare_bind with (Q := λ _, se_mantiene w0); [|intros _; by apply hoare_ret].
    apply (hoare_desde_eq _ _ _ (eliminar_receta_interactivo_hoare B)).
    intros w [] w' Hw [->|(r & _ & _ & ->)]; [done|by apply se_mantiene_eliminar].
  - eapply hoare_bind with (Q := λ _, se_mantiene w0); [|intros _; by apply hoare_ret].
    apply (hoare_desde_eq _ _ (λ w _, eq w) (preparar_receta_interactivo_hoare B)).
    by intros w [] w' Hw <-.
  - avanza. eapply hoare_bind; [by apply hoare_input|intros ?; cbv beta]. by apply hoare_ret.
  - eapply hoare_bind; [apply gestionar_lista_compras_mantiene|intros ?; cbv beta].
    by apply hoare_ret.
  - apply hoare_puntual. intros w (Hn & _ & Hv).
    eapply hoare_elevar_valor; [done|].
    eapply hoare_elevar_valor; [done|].
    apply hoare_ret. intros w' <-. split; [by apply se_mantiene_guardado|done].
  - avanza. avanza. by apply hoare_ret.
Qed.

Lemma cargar_datos_no_lanza (w : Mundo) :
  valor (cargar_datos w) = Valor tt ∨ valor (cargar_datos w) = FueraDelModelo.
Proof.
  pose proof (cargar_datos_run w) as H. cbv zeta in H.
  repeat case_match; rewrite H; auto.
Qed.

Lemma main_hoare (B : biblioteca) (w : Mundo) :
  hoare (eq w) (main B)
    (λ _ w', se_mantiene (mundo (cargar_datos (arranque (disco w)))) w' ∧
             sincronizado w')
    (λ x w',
       (x = AEOFError ∧ se_mantiene (mundo (cargar_datos (arranque (disco w)))) w') ∨
       (x = ANoTipado ∧ valor (cargar_datos (arranque (disco w))) = FueraDelModelo)).
Proof.
  unfold main.
  eapply hoare_bind with (Q := λ _, eq (arranque (disco w)));
    [by intros ent w' <-|intros _].
  destruct (cargar_datos_no_lanza (arranque (disco w))) as [Hc|Hc].
  - eapply hoare_elevar_valor; [exact Hc|].
    eapply hoare_pre with (P := se_mantiene (mundo (cargar_datos (arranque (disco w))))).
    + apply hoare_mientras; [|apply consume_ronda_main].
      eapply hoare_consecuencia; [apply ronda_main_hoare|done| |].
      * by intros [|] w'.
      * intros x w' [-> H]. by left.
    + intros w' <-. split; [by apply cargar_datos_nombres|]. split; [by left|done].
  - intros ent w' <-. unfold mbind, Sh_bind, elevar, fin, mundo_final, valor in *.
    destruct (cargar_datos (arranque (disco w))) as [[r w1] ev]. simpl in *. subst r.
    by right.
Qed.


(** X24. [main] leaves nothing unsaved.  When it returns, the file holds the
    manager as [guardar_datos] writes it.  When the input ends instead, the
    file holds the manager, or both are as they were after the load. *)
Theorem main_nada_sin_guardar (B : biblioteca) (ent : list string) (w : Mundo) :
  match fin (main B ent w) with
  | Hecho _ => sincronizado (mundo_final (main B ent w))
  | EOFError =>
      nada_sin_guardar (mundo (cargar_datos (arranque (disco w))))
        (mundo_final (main B ent w))
  | _ => True
  end.
Proof.
  pose proof (main_hoare B w ent w eq_refl) as H.
  destruct (fin (main B ent w)) as [[]|e| | |]; try done.
  - by destruct H.
  - destruct H as [[_ (_ & H & _)]|[? _]]; done.
Qed.


(** ** Una ronda de [eliminar_receta_interactivo] *)

Lemma mostrar_recetas_hay (g : GestorRecetas) :
  recetas g ≠ ∅ → (mostrar_recetas g).1 = true.
Proof. intros Hne. unfold mostrar_recetas. by rewrite decide_False. Qed.

Lemma mostrar_recetas_no_hay (g : GestorRecetas) :
  recetas g = ∅ →
  mostrar_recetas g
  = (false, [Traza (MostrarTitulo (salto +:+ "📖 RECETAS DISPONIBLES"));
             Print "No hay recetas registradas"]).
Proof. intros He. unfold mostrar_recetas. by rewrite decide_True. Qed.

Lemma mostrar_lista_compras_no_hay (g : GestorRecetas) :
  lista_compras g = ∅ →
  mostrar_lista_compras g
  = (false, [Traza (MostrarTitulo (salto +:+ "🛒 LISTA DE COMPRAS"));
             Print "La lista de compras está vacía"]).
Proof. intros He. unfold mostrar_lista_compras. by rewrite decide_True. Qed.

(** X26. With nothing to list, the dialogues that list first return at once:
    they write the title and that there is nothing, wait one second, read no
    line and change nothing. *)
Theorem dialogos_sin_nada_que_listar (B : biblioteca) (ent : list string) (w : Mundo) :
  (recetas (gestor w) = ∅ →
   eliminar_receta_interactivo B ent w
   = (Hecho tt, (ent, w),
      [Traza (MostrarTitulo (salto +:+ "📖 RECETAS DISPONIBLES"));
       Print "No hay recetas registradas"; Traza (Dormir 1)]) ∧
   preparar_receta_interactivo B ent w
   = (Hecho tt, (ent, w),
      [Traza (MostrarTitulo (salto +:+ "📖 RECETAS DISPONIBLES"));
       Print "No hay recetas registradas"; Traza (Dormir 1)])) ∧
  (lista_compras (gestor w) = ∅ →
   gestionar_lista_compras B ent w
   = (Hecho tt, (ent, w),
      [Traza (MostrarTitulo (salto +:+ "🛒 LISTA DE COMPRAS"));
       Print "La lista de compras está vacía"; Traza (Dormir 1)])).
Proof.
  split.
  - intros He.
    unfold eliminar_receta_interactivo, preparar_receta_interactivo, while_True.
    cbn [mientras]. unfold ronda_eliminar, ronda_preparar, mbind, Sh_bind, mostrar.
    by rewrite (mostrar_recetas_no_hay _ He).
  - intros He. unfold gestionar_lista_compras, while_True.
    cbn [mientras]. unfold ronda_lista_compras, mbind, Sh_bind, mostrar.
    by rewrite (mostrar_lista_compras_no_hay _ He).
Qed.


Lemma while_True_Continue (cuerpo : Sh control) (linea : string) (ent : list string)
    (w w' : Mundo) (out : list salida) :
  cuerpo (linea :: ent) w = (Hecho Continue, (ent, w'), out) →
  while_True cuerpo (linea :: ent) w
  = (fin (while_True cuerpo ent w'),
     (resto (while_True cuerpo ent w'), mundo_final (while_True cuerpo ent w')),
     out ++ escrito (while_True cuerpo ent w')).
Proof.
  intros Hc. unfold while_True at 1. cbn [length].
  change (mientras (S (S (length ent))) cuerpo)
    with (cuerpo ≫= λ c, match c with
                         | Break => mret tt
                         | Continue => mientras (S (length ent)) cuerpo
                         end).
  unfold mbind at 1, Sh_bind at 1. rewrite Hc.
  change (mientras (S (length ent)) cuerpo ent w') with (while_True cuerpo ent w').
  by destruct (while_True cuerpo ent w') as [[r [ent2 w2]] out2].
Qed.


Lemma len_values {A} (m : gmap string A) : len (values m) = Z.of_nat (size m).
Proof. unfold values, len. by rewrite length_fmap, length_map_to_list. Qed.


Lemma ronda_eliminar_no_valida (B : biblioteca) (linea : string)
    (ent : list string) (w : Mundo) :
  recetas (gestor w) ≠ ∅ → linea ≠ "0" →
  match int_de B linea with
  | Some z => indexar (values (recetas (gestor w))) (z - 1) = Lanza IndexError
  | None => True
  end →
  ronda_eliminar B (linea :: ent) w
  = (Hecho Continue, (ent, w),
     (mostrar_recetas (gestor w)).2
     ++ [Input (salto +:+ "Seleccione receta a eliminar (0 para cancelar): ");
         Traza (MostrarError "Selección no válida")]).
Proof.
  intros Hne Hno Hz.
  unfold ronda_eliminar, mbind at 1, Sh_bind at 1, mostrar.
  rewrite (mostrar_recetas_hay _ Hne). cbn [negb].
  unfold try_except, mbind at 1, Sh_bind at 1, input.
  rewrite decide_False by done.
  unfold int. destruct (int_de B linea) as [z|]; [|done].
  unfold mbind, Sh_bind, mret, Sh_ret, elevar. cbn [leer]. by rewrite Hz.
Qed.

(** X28. In [eliminar_receta_interactivo] over a store with recipes, a line
    that is not ["0"] and reads as no number, or as a number that is no
    index of the list of recipes, changes nothing: the dialogue lists the
    recipes, writes "Selección no válida" and goes on with the next line as
    if it had just been called. *)
Theorem eliminar_seleccion_no_valida (B : biblioteca) (linea : string)
    (ent : list string) (w : Mundo) :
  recetas (gestor w) ≠ ∅ → linea ≠ "0" →
  match int_de B linea with
  | Some z => ¬ (- Z.of_nat (size (recetas (gestor w))) ≤ z - 1
                 < Z.of_nat (size (recetas (gestor w))))%Z
  | None => True
  end →
  eliminar_receta_interactivo B (linea :: ent) w
  = (fin (eliminar_receta_interactivo B ent w),
     (resto (eliminar_receta_interactivo B ent w),
      mundo_final (eliminar_receta_interactivo B ent w)),
     ((mostrar_recetas (gestor w)).2
      ++ [Input (salto +:+ "Seleccione receta a eliminar (0 para cancelar): ");
          Traza (MostrarError "Selección no válida")])
     ++ escrito (eliminar_receta_interactivo B ent w)).
Proof.
  intros Hne Hno Hz. unfold eliminar_receta_interactivo.
  apply while_True_Continue, ronda_eliminar_no_valida; [done..|].
  destruct (int_de B linea) as [z|]; [|done].
  apply indexar_fuera_de_rango. by rewrite len_values.
Qed.





(** ** Testigos de las propiedades añadidas *)


Lemma gestionar_item_fuera_de_rango_testigo :
  gestionar_item MarcarComprado 7 w_comprado
  = (Valor tt, w_comprado, [MostrarError "Selección no válida"]).
Proof. apply (gestionar_item_fuera_de_rango MarcarComprado 7 w_comprado). evaluar. Defined.


Lemma lo_comprado_no_se_deshace_testigo :
  lista_compras (gestor (mundo (ejecutar (Eliminar "flan") w_comprado))) !! "huevo" = None ∨
  lista_compras (gestor (mundo (ejecutar (Eliminar "flan") w_comprado))) !! "huevo"
  = Some (mkItemCompra "huevo" COMPRADO).
Proof.
  apply (lo_comprado_no_se_deshace (Eliminar "flan") w_comprado "huevo"
           (mkItemCompra "huevo" COMPRADO)); vm_compute; reflexivity.
Defined.



Lemma cargar_datos_no_objeto_testigo :
  cargar_datos (arranque (Contenido (JArr [])))
  = (Valor tt, arranque (Contenido (JArr [])), [ErrorCargando AttributeError]).
Proof.
  apply (cargar_datos_no_objeto (JArr []) (arranque (Contenido (JArr []))));
    [reflexivity|discriminate].
Defined.

Lemma cargar_datos_todas_o_ninguna_testigo :
  map_Forall (λ k rec, nombre rec = k)
    (recetas (gestor (mundo (cargar_datos
       (arranque (Contenido (JObj [("recetas", JObj [("flan", receta_a_json tortilla)])]))))))).
Proof.
  refine (proj2 (cargar_datos_todas_o_ninguna
                   [("recetas", JObj [("flan", receta_a_json tortilla)])]
                   [("flan", receta_a_json tortilla)] _ _)); vm_compute; reflexivity.
Defined.

Lemma faltantes_tras_eliminar_item_testigo :
  ∃ k, lista_compras
         (tras (gestionar_item EliminarItem 0)
               (mundo (ejecutar_todas [Agregar tortilla] (arranque Ausente))))
       = delete k (lista_compras
                     (gestor (mundo (ejecutar_todas [Agregar tortilla] (arranque Ausente))))).
Proof.
  destruct (sin_quitar_alcanzable Ausente [Agregar tortilla] eq_refl) as (_ & Hn & Hc).
  destruct (faltantes_tras_eliminar_item 0
              (mundo (ejecutar_todas [Agregar tortilla] (arranque Ausente)))
              Hn Hc ltac:(evaluar)) as (k & Hk & _).
  exists k. exact Hk.
Defined.

Lemma agregar_eliminar_identidad_testigo :
  tras (agregar_receta tortilla ;; eliminar_receta "tortilla") (arranque Ausente)
  = gestor (arranque Ausente).
Proof.
  refine (proj2 (agregar_eliminar_identidad tortilla (arranque Ausente) _ _)).
  - evaluar.
  - intros x. split.
    + intros H. simpl in H. rewrite dom_empty in H. by apply elem_of_empty in H.
    + intros (n & r & H & _). simpl in H. by rewrite lookup_empty in H.
Defined.






Lemma eliminar_seleccion_no_valida_testigo :
  fin (eliminar_receta_interactivo biblioteca_de_ejemplo ["10"; "0"] w_comprado)
  = fin (eliminar_receta_interactivo biblioteca_de_ejemplo ["0"] w_comprado).
Proof.
  refine (f_equal fin
            (eliminar_seleccion_no_valida biblioteca_de_ejemplo "10" ["0"] w_comprado _ _ _)).
  - intros H. apply (f_equal size) in H. vm_compute in H. discriminate.
  - discriminate.
  - evaluar.
Defined.

